(** * dc.js text filter widget (src/charts/text-filter-widget.js)

    A shallow embedding of the [TextFilterWidget] class: its three
    configuration fields and their accessors, the two closures the
    constructor creates (the default normalization and the default
    filter-function factory), the function it installs as its group, and
    the render and redraw hooks with the input listener they attach.

    The class is glue over three collaborators that are not part of the
    file: the base mixin it extends, the d3 selection API, and the
    debounced trigger of the event module.  Each of them is modelled below
    under a comment that says so. *)

From Stdlib Require Import List String Ascii NArith ZArith Bool Arith Lia.
Import ListNotations.
Local Open Scope list_scope.

Set Warnings "-register-all".

(** ** Strings *)

(** A JavaScript string is a sequence of UTF-16 code units. *)
Definition jsstring : Type := list N.

(** String literals of the source, as code-unit sequences. *)
Definition js (s : string) : jsstring :=
  map N_of_ascii (list_ascii_of_string s).

Fixpoint jsstring_eqb (a b : jsstring) : bool :=
  match a, b with
  | [], [] => true
  | x :: a', y :: b' => N.eqb x y && jsstring_eqb a' b'
  | _, _ => false
  end.

(** [startsWith q s]: [q] occurs in [s] at position 0. *)
Fixpoint startsWith (q s : jsstring) : bool :=
  match q, s with
  | [], _ => true
  | _ :: _, [] => false
  | x :: q', y :: s' => N.eqb x y && startsWith q' s'
  end.

(** [String.prototype.indexOf] with one argument: the smallest position at
    which the search string occurs, and -1 when there is none.  [k] is the
    position of the first code unit of [s] in the string searched. *)
Fixpoint indexOf_from (k : Z) (s q : jsstring) : Z :=
  if startsWith q s then k
  else match s with
       | [] => (-1)%Z
       | _ :: s' => indexOf_from (k + 1) s' q
       end.

Definition indexOf (s q : jsstring) : Z := indexOf_from 0 s q.

(** Lowercasing of the code units A-Z, the part of
    [String.prototype.toLowerCase] that concerns ASCII text. *)
Definition ascii_lower_unit (c : N) : N :=
  if (65 <=? c)%N && (c <=? 90)%N then (c + 32)%N else c.

Definition ascii_lower (s : jsstring) : jsstring := map ascii_lower_unit s.

Definition is_ascii (s : jsstring) : bool := forallb (fun c => (c <? 128)%N) s.

(** [q] occurs in [s] as a substring. *)
Definition substring_of (q s : jsstring) : Prop :=
  exists pre post, s = pre ++ q ++ post.

(** ** Values *)

(** The values the widget is exercised with: undefined, null, booleans,
    strings, the instance, and functions.  Functions are the closures of
    the file, defunctionalized, and the functions the application
    supplies ([FHost], named by a number and interpreted by the
    environment as pure functions of their first argument).  Numbers,
    arrays and other objects are not part of the model. *)
Inductive jsval : Type :=
| VUndefined
| VNull
| VBoolean (b : bool)
| VString (s : jsstring)
| VFunction (f : function)
| VThis                       (* the widget instance *)
with function : Type :=
| FDefaultNormalize           (* s => s.toLowerCase() *)
| FDefaultFactory             (* query => { query = this._normalize(query); return d => ... } *)
| FDefaultPredicate (query : jsval)
                              (* d => this._normalize(d).indexOf(query) !== -1 *)
| FGroupThrower               (* () => { throw '...' } *)
| FHost (id : nat).

(** What a [throw] carries: a thrown value, or one of the two errors the
    engine raises by itself here. *)
Inductive thrown : Type :=
| Thrown (v : jsval)
| TypeError
| RangeError.

Inductive result (A : Type) : Type :=
| Ok (a : A)
| Throw (e : thrown).
Arguments Ok {A} a.
Arguments Throw {A} e.

Definition is_Ok {A} (r : result A) : bool :=
  match r with Ok _ => true | Throw _ => false end.

Definition rbind {A B} (r : result A) (k : A -> result B) : result B :=
  match r with
  | Ok a => k a
  | Throw e => Throw e
  end.

(** The engine's built-ins, the constants of the library and the
    functions of the application that the file relies on. *)
Record Env : Type := {
  toLowerCase : jsstring -> jsstring;       (* String.prototype.toLowerCase *)
  functionSource : function -> jsstring;    (* Function.prototype.toString *)
  host : nat -> jsval -> result jsval;      (* application functions, of their first argument *)
  EVENT_DELAY : Z                           (* constants.EVENT_DELAY *)
}.

Definition INPUT_CSS_CLASS : string := "dc-text-filter-input".

Definition GROUP_MESSAGE : jsstring :=
  js "the group function on textFilterWidget should never be called, please report the issue".

(** The environment in which [toLowerCase] is ASCII lowercasing and the
    application supplies: 0, the identity; 1 and 2, the constant
    predicates; 3, a factory that answers predicate 1 for the query
    "COLE" and predicate 2 for any other; under any other number, a
    function that answers undefined. *)
Definition ascii_env : Env := {|
  toLowerCase := ascii_lower;
  functionSource := fun _ => js "function () { [native code] }";
  host := fun id v =>
    match id with
    | 0 => Ok v
    | 1 => Ok (VBoolean true)
    | 2 => Ok (VBoolean false)
    | 3 => match v with
           | VString s => if jsstring_eqb s (js "COLE")
                          then Ok (VFunction (FHost 1))
                          else Ok (VFunction (FHost 2))
           | _ => Ok (VFunction (FHost 2))
           end
    | _ => Ok VUndefined
    end;
  EVENT_DELAY := 40
|}.

(** ** The document under the mount point *)

(** The listener that [_doRender] attaches (the function of lines 66-71),
    and the callback it hands to the debounced trigger
    ([() => { redrawAll(); }]). *)
Inductive listener : Type := FilterOnInput.
Inductive callback : Type := RedrawAllCallback.

(** A DOM element: tag name, class list, attributes, d3 listeners by event
    type, the [value] property (the text of an input), the datum d3 bound
    to it if any, and its children in document order. *)
Inductive element : Type := Element {
  tag : string;
  classes : list string;
  attrs : list (string * jsstring);
  listeners : list (string * listener);
  value : jsstring;
  datum : option jsval;
  children : list element
}.

Definition set_children (cs : list element) (e : element) : element :=
  Element (tag e) (classes e) (attrs e) (listeners e) (value e) (datum e) cs.
Definition set_classes (cl : list string) (e : element) : element :=
  Element (tag e) cl (attrs e) (listeners e) (value e) (datum e) (children e).
Definition set_attrs (a : list (string * jsstring)) (e : element) : element :=
  Element (tag e) (classes e) a (listeners e) (value e) (datum e) (children e).
Definition set_listeners (l : list (string * listener)) (e : element) : element :=
  Element (tag e) (classes e) (attrs e) l (value e) (datum e) (children e).
Definition set_value (v : jsstring) (e : element) : element :=
  Element (tag e) (classes e) (attrs e) (listeners e) v (datum e) (children e).
Definition set_datum (d : option jsval) (e : element) : element :=
  Element (tag e) (classes e) (attrs e) (listeners e) (value e) d (children e).

(** [document.createElement(t)], with the datum d3 copies from the parent. *)
Definition createElement (t : string) (d : option jsval) : element :=
  Element t [] [] [] [] d [].

(** Association lists for attributes and listeners. *)
Fixpoint get_assoc {A} (name : string) (l : list (string * A)) : option A :=
  match l with
  | [] => None
  | (n, x) :: l' => if String.eqb n name then Some x else get_assoc name l'
  end.

Fixpoint set_assoc {A} (name : string) (v : A) (l : list (string * A))
  : list (string * A) :=
  match l with
  | [] => [(name, v)]
  | (n, x) :: l' =>
      if String.eqb n name then (n, v) :: l' else (n, x) :: set_assoc name v l'
  end.

Definition remove_assoc {A} (name : string) (l : list (string * A))
  : list (string * A) :=
  filter (fun nx => negb (String.eqb (fst nx) name)) l.

(** [element.getAttribute], [setAttribute] and [removeAttribute]. *)
Definition getAttribute (name : string) (e : element) : option jsstring :=
  get_assoc name (attrs e).
Definition setAttribute (name : string) (v : jsstring) (e : element) : element :=
  set_attrs (set_assoc name v (attrs e)) e.
Definition removeAttribute (name : string) (e : element) : element :=
  set_attrs (remove_assoc name (attrs e)) e.

(** [classList.add]. *)
Definition add_class (c : string) (e : element) : element :=
  if existsb (String.eqb c) (classes e) then e
  else set_classes (classes e ++ [c]) e.

(** d3's [on(type, listener)] on one element: the listener replaces the
    one registered for the same type. *)
Definition set_listener (type : string) (l : listener) (e : element) : element :=
  set_listeners (remove_assoc type (listeners e) ++ [(type, l)]) e.

(** An element is addressed by the child indices on the way down from the
    mount point; a d3 selection is the list of its elements in document
    order. *)
Definition path : Type := list nat.
Definition selection : Type := list path.

Fixpoint alter_nth {A} (i : nat) (f : A -> A) (l : list A) : list A :=
  match l, i with
  | [], _ => []
  | x :: l', 0 => f x :: l'
  | x :: l', S i' => x :: alter_nth i' f l'
  end.

Fixpoint delete_nth {A} (i : nat) (l : list A) : list A :=
  match l, i with
  | [], _ => []
  | _ :: l', 0 => l'
  | x :: l', S i' => x :: delete_nth i' l'
  end.

Fixpoint get_at (p : path) (e : element) : option element :=
  match p with
  | [] => Some e
  | i :: p' => match nth_error (children e) i with
               | Some c => get_at p' c
               | None => None
               end
  end.

Fixpoint update_at (p : path) (f : element -> element) (e : element) : element :=
  match p with
  | [] => f e
  | i :: p' => set_children (alter_nth i (update_at p' f) (children e)) e
  end.

(** Detaching the element at [p] from its parent; the mount point itself
    (the empty path) stays. *)
Fixpoint remove_at (p : path) (e : element) : element :=
  match p with
  | [] => e
  | i :: p' =>
      match p' with
      | [] => set_children (delete_nth i (children e)) e
      | _ :: _ => set_children (alter_nth i (remove_at p') (children e)) e
      end
  end.

(** The path of the next sibling's subtree. *)
Definition shift (p : path) : path :=
  match p with
  | [] => []
  | i :: p' => S i :: p'
  end.

Definition has_tag (t : string) (e : element) : bool := String.eqb (tag e) t.

(** [querySelector(t)] for a tag name: the first descendant with that tag,
    in document order (an element comes before its own descendants, and
    these before its next sibling). *)
Definition querySelector_forest (t : string) (rec : element -> option path)
  : list element -> option path :=
  fix go (cs : list element) : option path :=
    match cs with
    | [] => None
    | c :: rest =>
        if has_tag t c then Some [0]
        else match rec c with
             | Some p => Some (0 :: p)
             | None => option_map shift (go rest)
             end
    end.

Fixpoint querySelector (t : string) (e : element) : option path :=
  querySelector_forest t (querySelector t) (children e).

(** [querySelectorAll(t)]: all descendants with that tag, in document
    order. *)
Definition querySelectorAll_forest (t : string) (rec : element -> list path)
  : list element -> list path :=
  fix go (cs : list element) : list path :=
    match cs with
    | [] => []
    | c :: rest =>
        (if has_tag t c then [[0]] else [])
          ++ map (cons 0) (rec c) ++ map shift (go rest)
    end.

Fixpoint querySelectorAll (t : string) (e : element) : list path :=
  querySelectorAll_forest t (querySelectorAll t) (children e).

(** The number of descendants with tag [t]. *)
Definition count_forest (t : string) (rec : element -> nat)
  : list element -> nat :=
  fix go (cs : list element) : nat :=
    match cs with
    | [] => 0
    | c :: rest => (if has_tag t c then 1 else 0) + rec c + go rest
    end.

Fixpoint count_tag (t : string) (e : element) : nat :=
  count_forest t (count_tag t) (children e).

(** The tree with the attribute [name] dropped from every descendant with
    tag [t]: what is left of the document when that attribute is ignored. *)
Definition forget_forest (t name : string) (rec : element -> element)
  : list element -> list element :=
  fix go (cs : list element) : list element :=
    match cs with
    | [] => []
    | c :: rest =>
        (if has_tag t c then removeAttribute name (rec c) else rec c) :: go rest
    end.

Fixpoint forget_attr (t name : string) (e : element) : element :=
  set_children (forget_forest t name (forget_attr t name) (children e)) e.

(** ** The widget and its collaborators *)

(** Modelled from the spec: the dimension that the application binds to
    the widget is an object of the crossfilter library, of which the
    widget uses [filterFunction] only; a dimension supports
    filter-predicate installation, and [active_filter] is the function
    last installed. *)
Record Dimension : Type := { active_filter : option jsval }.

(** The instance, with the fields of the base mixin that the file reaches
    through inherited methods ([_group], [_dimension], [_chartGroup],
    [_root] with the document below the mount point), and the requests
    handed to the debounced trigger so far, oldest first. *)
Record Widget : Type := {
  _normalize : jsval;
  _filterFunctionFactory : jsval;
  _placeHolder : jsval;
  _input : option selection;
  _group : jsval;
  _dimension : option Dimension;
  _chartGroup : jsval;
  _root : element;
  triggered : list (callback * Z)
}.

Definition set_normalize (v : jsval) (w : Widget) : Widget :=
  {| _normalize := v; _filterFunctionFactory := _filterFunctionFactory w;
     _placeHolder := _placeHolder w; _input := _input w; _group := _group w;
     _dimension := _dimension w; _chartGroup := _chartGroup w;
     _root := _root w; triggered := triggered w |}.
Definition set_filterFunctionFactory (v : jsval) (w : Widget) : Widget :=
  {| _normalize := _normalize w; _filterFunctionFactory := v;
     _placeHolder := _placeHolder w; _input := _input w; _group := _group w;
     _dimension := _dimension w; _chartGroup := _chartGroup w;
     _root := _root w; triggered := triggered w |}.
Definition set_placeHolder (v : jsval) (w : Widget) : Widget :=
  {| _normalize := _normalize w; _filterFunctionFactory := _filterFunctionFactory w;
     _placeHolder := v; _input := _input w; _group := _group w;
     _dimension := _dimension w; _chartGroup := _chartGroup w;
     _root := _root w; triggered := triggered w |}.
Definition set_input (s : option selection) (w : Widget) : Widget :=
  {| _normalize := _normalize w; _filterFunctionFactory := _filterFunctionFactory w;
     _placeHolder := _placeHolder w; _input := s; _group := _group w;
     _dimension := _dimension w; _chartGroup := _chartGroup w;
     _root := _root w; triggered := triggered w |}.
Definition set_group (v : jsval) (w : Widget) : Widget :=
  {| _normalize := _normalize w; _filterFunctionFactory := _filterFunctionFactory w;
     _placeHolder := _placeHolder w; _input := _input w; _group := v;
     _dimension := _dimension w; _chartGroup := _chartGroup w;
     _root := _root w; triggered := triggered w |}.
Definition set_dimension (d : option Dimension) (w : Widget) : Widget :=
  {| _normalize := _normalize w; _filterFunctionFactory := _filterFunctionFactory w;
     _placeHolder := _placeHolder w; _input := _input w; _group := _group w;
     _dimension := d; _chartGroup := _chartGroup w;
     _root := _root w; triggered := triggered w |}.
Definition set_chartGroup (v : jsval) (w : Widget) : Widget :=
  {| _normalize := _normalize w; _filterFunctionFactory := _filterFunctionFactory w;
     _placeHolder := _placeHolder w; _input := _input w; _group := _group w;
     _dimension := _dimension w; _chartGroup := v;
     _root := _root w; triggered := triggered w |}.
Definition set_root (r : element) (w : Widget) : Widget :=
  {| _normalize := _normalize w; _filterFunctionFactory := _filterFunctionFactory w;
     _placeHolder := _placeHolder w; _input := _input w; _group := _group w;
     _dimension := _dimension w; _chartGroup := _chartGroup w;
     _root := r; triggered := triggered w |}.
Definition set_triggered (t : list (callback * Z)) (w : Widget) : Widget :=
  {| _normalize := _normalize w; _filterFunctionFactory := _filterFunctionFactory w;
     _placeHolder := _placeHolder w; _input := _input w; _group := _group w;
     _dimension := _dimension w; _chartGroup := _chartGroup w;
     _root := _root w; triggered := t |}.

(** Methods run on the instance and either return or throw; what they did
    to the instance before a throw stays done. *)
Definition M (A : Type) : Type := Widget -> result A * Widget.

Definition ret {A} (a : A) : M A := fun w => (Ok a, w).
Definition throw {A} (e : thrown) : M A := fun w => (Throw e, w).
Definition bind {A B} (c : M A) (k : A -> M B) : M B :=
  fun w => match c w with
           | (Ok a, w') => k a w'
           | (Throw e, w') => (Throw e, w')
           end.
Definition get {A} (f : Widget -> A) : M A := fun w => (Ok (f w), w).
Definition modify (f : Widget -> Widget) : M unit := fun w => (Ok tt, f w).
Definition lift {A} (f : Widget -> result A) : M A := fun w => (f w, w).

Notation "x <- c ;; k" := (bind c (fun x => k))
  (at level 61, c at next level, right associativity).
Notation "c ;; k" := (bind c (fun _ => k))
  (at level 61, right associativity).

(** [forEach] over a list, stopping at the first throw. *)
Fixpoint forEach {A} (f : A -> M unit) (l : list A) : M unit :=
  match l with
  | [] => ret tt
  | x :: l' => f x ;; forEach f l'
  end.

Section Widget.

Variable env : Env.

(** *** Calls *)

(** [ToString] of the values of the model, none of which raises when it
    is converted; symbols and objects with a conversion of their own are
    not among them. *)
Definition ToString (v : jsval) : jsstring :=
  match v with
  | VUndefined => js "undefined"
  | VNull => js "null"
  | VBoolean true => js "true"
  | VBoolean false => js "false"
  | VString s => s
  | VFunction f => functionSource env f
  | VThis => js "[object Object]"
  end.

(** [v.toLowerCase()]: only strings have the method. *)
Definition call_toLowerCase (v : jsval) : result jsval :=
  match v with
  | VString s => Ok (VString (toLowerCase env s))
  | _ => Throw TypeError
  end.

(** [v.indexOf(q)]: only strings have the method among the values of the
    model; the search argument is converted to a string. *)
Definition call_indexOf (v q : jsval) : result Z :=
  match v with
  | VString s => Ok (indexOf s (ToString q))
  | _ => Throw TypeError
  end.

(** [f(arg)] on the instance [w], with room for [depth] nested calls on the
    stack.  The two closures of the constructor read [this._normalize] when
    they run. *)
Fixpoint call (depth : nat) (w : Widget) (f : jsval) (arg : jsval)
  : result jsval :=
  match f with
  | VFunction fn =>
      match depth with
      | 0 => Throw RangeError
      | S depth' =>
          match fn with
          | FDefaultNormalize => call_toLowerCase arg
          | FDefaultFactory =>
              rbind (call depth' w (_normalize w) arg) (fun query =>
              Ok (VFunction (FDefaultPredicate query)))
          | FDefaultPredicate query =>
              rbind (call depth' w (_normalize w) arg) (fun nd =>
              rbind (call_indexOf nd query) (fun i =>
              Ok (VBoolean (negb (Z.eqb i (-1))))))
          | FGroupThrower => Throw (Thrown (VString GROUP_MESSAGE))
          | FHost id => host env id arg
          end
      end
  | _ => Throw TypeError
  end.

(** *** The d3 selection API *)

(** Modelled from the spec: the DOM selection API the widget consumes
    (select, append, classed, attr, on, selectAll, remove) is the d3
    library's and not part of the file; the functions below follow the
    documentation of that library.  [select] keeps, for each element of
    the selection, its first matching descendant, which inherits the datum
    of the element it was found under when that one has a datum. *)
Definition d3_select (t : string) (sel : selection) : M selection :=
  fun w =>
    let r := _root w in
    let found :=
      flat_map (fun p =>
        match get_at p r with
        | Some e => match querySelector t e with
                    | Some q => [(p ++ q, datum e)]
                    | None => []
                    end
        | None => []
        end) sel in
    (Ok (map fst found),
     set_root
       (fold_left (fun r' pd =>
          match snd pd with
          | Some d => update_at (fst pd) (set_datum (Some d)) r'
          | None => r'
          end) found r) w).

(** Modelled from the spec: [selectAll] of the d3 library keeps, for each
    element of the selection, all its matching descendants. *)
Definition d3_selectAll (t : string) (sel : selection) : M selection :=
  get (fun w =>
    flat_map (fun p =>
      match get_at p (_root w) with
      | Some e => map (app p) (querySelectorAll t e)
      | None => []
      end) sel).

(** Modelled from the spec: [remove] detaches every element of the
    selection from the document (the last in document order first, so that
    the paths of the others stay valid). *)
Definition d3_remove (sel : selection) : M unit :=
  modify (fun w => set_root (fold_right remove_at (_root w) sel) w).

(** Modelled from the spec: [append] adds a new last child with the given
    tag to each element of the selection, and answers the selection of the
    new elements. *)
Definition d3_append (t : string) (sel : selection) : M selection :=
  fun w =>
    let r := _root w in
    (Ok (flat_map (fun p =>
           match get_at p r with
           | Some e => [p ++ [List.length (children e)]]
           | None => []
           end) sel),
     set_root
       (fold_left (fun r' p =>
          update_at p (fun e =>
            set_children (children e ++ [createElement t (datum e)]) e) r')
          sel r) w).

(** Modelled from the spec: [classed(c, true)] adds the class to every
    element of the selection, [classed(c, false)] takes it away. *)
Definition d3_classed (c : string) (b : bool) (sel : selection) : M unit :=
  modify (fun w =>
    set_root
      (fold_left (fun r p =>
         update_at p (fun e =>
           if b then add_class c e
           else set_classes
                  (filter (fun x => negb (String.eqb c x)) (classes e)) e) r)
         sel (_root w)) w).

(** Modelled from the spec: [on(type, listener)] registers the listener on
    every element of the selection. *)
Definition d3_on (type : string) (l : listener) (sel : selection) : M unit :=
  modify (fun w =>
    set_root
      (fold_left (fun r p => update_at p (set_listener type l) r)
         sel (_root w)) w).

(** Modelled from the spec: [attr(name, v)] on one element.  A null or
    undefined [v] removes the attribute; a function is called with the
    element's datum, and its result decides in the same way; any other
    value is set, as a string. *)
Definition attr_at (depth : nat) (name : string) (v : jsval) (p : path)
  : M unit :=
  fun w =>
    match get_at p (_root w) with
    | None => (Ok tt, w)
    | Some e =>
        let remove := (Ok tt, set_root (update_at p (removeAttribute name) (_root w)) w) in
        let set s := (Ok tt, set_root (update_at p (setAttribute name s) (_root w)) w) in
        match v with
        | VUndefined | VNull => remove
        | VFunction _ =>
            match call depth w v
                    (match datum e with Some d => d | None => VUndefined end) with
            | Throw x => (Throw x, w)
            | Ok VUndefined | Ok VNull => remove
            | Ok r => set (ToString r)
            end
        | _ => set (ToString v)
        end
    end.

(** Modelled from the spec: [attr(name, v)] on a selection treats its
    elements one after the other, in document order. *)
Definition d3_attr (depth : nat) (name : string) (v : jsval) (sel : selection)
  : M unit :=
  forEach (attr_at depth name v) sel.

(** *** The base mixin, the dimension and the event module *)

(** Modelled from the spec: [root()] of the base mixin answers the
    selection of the mount point, and [select(t)] selects below it. *)
Definition root : M selection := ret [[]].

Definition select (t : string) : M selection :=
  r <- root ;; d3_select t r.

(** Modelled from the spec: [group] of the base mixin is not part of the
    file.  It is an accessor like the three of the widget (a get/set
    pair): with no argument it answers the group of the chart, with one
    it stores the argument as the group.  The constructor calls it with
    one argument. *)
Definition group (args : list jsval) : M jsval :=
  match args with
  | [] => get _group
  | v :: _ => modify (set_group v) ;; ret VThis
  end.

(** Modelled from the spec: [dimension()] of the base mixin answers the
    dimension bound to the chart, if any. *)
Definition dimension : M (option Dimension) := get _dimension.

(** Modelled from the spec: [anchor(parent, chartGroup)] of the base mixin
    makes the element [parent] the mount point and records the chart
    group. *)
Definition anchor (parent : element) (chartGroup : jsval) : M jsval :=
  modify (set_root parent) ;;
  modify (set_chartGroup chartGroup) ;;
  ret VThis.

(** Modelled from the spec: [filterFunction(f)] of the bound dimension
    installs [f] as its active filter function. *)
Definition filterFunction (f : jsval) : M unit :=
  modify (set_dimension (Some {| active_filter := Some f |})).

(** Modelled from the spec: [events.trigger(callback, delay)] hands the
    callback to the debouncing facility, which is not part of the file;
    the request is recorded. *)
Definition events_trigger (cb : callback) (delay : Z) : M unit :=
  modify (fun w => set_triggered (triggered w ++ [(cb, delay)]) w).

(** *** The class *)

(** The instance before the constructor body runs: nothing is set, and
    the mount point is a detached element until [anchor]. *)
Definition BaseMixin_new : Widget := {|
  _normalize := VUndefined;
  _filterFunctionFactory := VUndefined;
  _placeHolder := VUndefined;
  _input := None;
  _group := VUndefined;
  _dimension := None;
  _chartGroup := VUndefined;
  _root := createElement "div" None;
  triggered := []
|}.

(** The constructor, over the group accessor it inherits. *)
Definition constructor_over (inherited_group : list jsval -> M jsval)
  (parent : element) (chartGroup : jsval) : M unit :=
  modify (set_normalize (VFunction FDefaultNormalize)) ;;
  modify (set_filterFunctionFactory (VFunction FDefaultFactory)) ;;
  modify (set_placeHolder (VString (js "search"))) ;;
  inherited_group [VFunction FGroupThrower] ;;
  anchor parent chartGroup ;;
  ret tt.

Definition constructor (parent : element) (chartGroup : jsval) : M unit :=
  constructor_over group parent chartGroup.

(** [textFilterWidget(parent, chartGroup)]: the outcome of the
    constructor and the new instance. *)
Definition textFilterWidget (parent : element) (chartGroup : jsval)
  : result unit * Widget :=
  constructor parent chartGroup BaseMixin_new.

(** The listener of lines 66-71, run with [this.value]. *)
Definition input_listener (depth : nat) (this_value : jsstring) : M unit :=
  d <- dimension ;;
  match d with
  | None => throw TypeError
  | Some _ =>
      factory <- get _filterFunctionFactory ;;
      p <- lift (fun w => call depth w factory (VString this_value)) ;;
      filterFunction p ;;
      events_trigger RedrawAllCallback (EVENT_DELAY env)
  end.

Definition _doRedraw (depth : nat) : M jsval :=
  r <- root ;;
  s <- d3_selectAll "input" r ;;
  ph <- get _placeHolder ;;
  d3_attr depth "placeholder" ph s ;;
  ret VThis.

Definition _doRender (depth : nat) : M jsval :=
  s <- select "input" ;;
  d3_remove s ;;
  r <- root ;;
  i <- d3_append "input" r ;;
  d3_classed INPUT_CSS_CLASS true i ;;
  modify (set_input (Some i)) ;;
  d3_on "input" FilterOnInput i ;;
  _doRedraw depth ;;
  ret VThis.

Definition normalize (args : list jsval) : M jsval :=
  match args with
  | [] => get _normalize
  | v :: _ => modify (set_normalize v) ;; ret VThis
  end.

Definition placeHolder (args : list jsval) : M jsval :=
  match args with
  | [] => get _placeHolder
  | v :: _ => modify (set_placeHolder v) ;; ret VThis
  end.

Definition filterFunctionFactory (args : list jsval) : M jsval :=
  match args with
  | [] => get _filterFunctionFactory
  | v :: _ => modify (set_filterFunctionFactory v) ;; ret VThis
  end.

(** *** Events of the page *)

(** The user edits the element at [p] so that its text is [text]; the
    browser then runs the listener registered on it for the input event. *)
Definition input_event (depth : nat) (p : path) (text : jsstring) : M unit :=
  modify (fun w => set_root (update_at p (set_value text) (_root w)) w) ;;
  e <- get (fun w => get_at p (_root w)) ;;
  match e with
  | None => ret tt
  | Some this =>
      match get_assoc "input" (listeners this) with
      | Some FilterOnInput => input_listener depth (value this)
      | None => ret tt
      end
  end.

(** [n] renders in succession. *)
Fixpoint render_times (depth n : nat) (w : Widget) : Widget :=
  match n with
  | 0 => w
  | S n' => render_times depth n' (snd (_doRender depth w))
  end.

(** *** Vocabulary of the properties *)

(** The default factory applied to the query [q], and the predicate it
    answers applied to the record value [d]. *)
Definition default_filter (depth : nat) (w : Widget) (q d : jsstring)
  : result jsval :=
  rbind (call depth w (VFunction FDefaultFactory) (VString q)) (fun p =>
  call depth w p (VString d)).

(** The configured normalization function answers a string for every
    string. *)
Definition normalizes_strings (depth : nat) (w : Widget) : Prop :=
  forall s, exists s', call depth w (_normalize w) (VString s) = Ok (VString s').

End Widget.

(** The document with all attributes dropped. *)
Fixpoint skeleton (e : element) : element :=
  Element (tag e) (classes e) [] (listeners e) (value e) (datum e)
          (map skeleton (children e)).

(** [f] applied to every descendant with tag [t]. *)
Fixpoint each_tagged (t : string) (f : element -> element) (e : element)
  : element :=
  set_children
    (map (fun c => if has_tag t c then f (each_tagged t f c)
                   else each_tagged t f c) (children e)) e.

(** [update_at] seen from the parent of the path's first step. *)
Definition update_forest (p : path) (f : element -> element)
  (cs : list element) : list element :=
  match p with
  | [] => cs
  | i :: p' => alter_nth i (update_at p' f) cs
  end.

(** [remove_at] seen from the parent of the path's first step. *)
Definition remove_forest (p : path) (cs : list element) : list element :=
  match p with
  | [] => cs
  | [i] => delete_nth i cs
  | i :: p' => alter_nth i (remove_at p') cs
  end.

(** The mount point after [this.select('input').remove()]. *)
Definition without_first_input (r : element) : element :=
  match querySelector "input" r with
  | Some q => remove_at q r
  | None => r
  end.

(** The input element as [_doRender] leaves it, before the placeholder is
    applied. *)
Definition rendered_input (d : option jsval) : element :=
  Element "input" [INPUT_CSS_CLASS] [] [("input"%string, FilterOnInput)] [] d [].

Definition is_function (v : jsval) : bool :=
  match v with VFunction _ => true | _ => false end.

(** *** Sample pages and instances *)

Definition empty_mount : element := createElement "div" None.

(** A mount point that already holds two inputs. *)
Definition two_inputs : element :=
  Element "div" [] [] [] [] None
    [createElement "input" None; createElement "input" None].

Definition new_widget : Widget := snd (textFilterWidget empty_mount VUndefined).

(** A widget in the chart group "g", bound to a dimension and rendered. *)
Definition rendered_widget : Widget :=
  snd (_doRender ascii_env 8
         (set_dimension (Some {| active_filter := None |})
            (snd (textFilterWidget empty_mount (VString (js "g")))))).

Definition two_inputs_widget : Widget := snd (textFilterWidget two_inputs VUndefined).

(** The element that render leaves in [rendered_widget]. *)
Definition rendered_element : element :=
  setAttribute "placeholder" (js "search") (rendered_input None).

(** [rendered_widget] after [filterFunctionFactory(f)], where [f] is the
    application's factory 3. *)
Definition custom_factory_widget : Widget :=
  snd (filterFunctionFactory [VFunction (FHost 3)] rendered_widget).

(** [new_widget] after [normalize(s => s)], after [normalize(undefined)],
    and after [normalize(f)] for a function [f] that answers undefined. *)
Definition identity_normalizer_widget : Widget :=
  snd (normalize [VFunction (FHost 0)] new_widget).
Definition no_normalizer_widget : Widget :=
  snd (normalize [VUndefined] new_widget).
Definition undefined_normalizer_widget : Widget :=
  snd (normalize [VFunction (FHost 4)] new_widget).

(** [rendered_widget] after [placeHolder(f)], where [f] is the function
    installed as its group. *)
Definition thrower_placeholder_widget : Widget :=
  snd (placeHolder [VFunction FGroupThrower] rendered_widget).

(** * Properties *)

(** ** Strings *)

Lemma startsWith_spec (q s : jsstring) :
  startsWith q s = true <-> exists post, s = q ++ post.
Proof.
  revert s. induction q as [|x q IH]; intros s; simpl.
  - split; [intros _; now exists s | reflexivity].
  - destruct s as [|y s].
    + split; [discriminate | intros [post H]; discriminate].
    + rewrite andb_true_iff, N.eqb_eq, IH. split.
      * intros [-> [post ->]]. now exists post.
      * intros [post H]. injection H as -> ->. split; [reflexivity | now exists post].
Qed.

Lemma indexOf_from_range (k : Z) (s q : jsstring) :
  (0 <= k)%Z -> (indexOf_from k s q = -1 \/ k <= indexOf_from k s q)%Z.
Proof.
  revert k. induction s as [|y s IH]; intros k Hk; simpl.
  - destruct (startsWith q []); [right; lia | now left].
  - destruct (startsWith q (y :: s)); [right; lia |].
    destruct (IH (k + 1)%Z) as [H | H]; [lia | now left | right; lia].
Qed.

Lemma indexOf_from_spec (k : Z) (s q : jsstring) :
  (0 <= k)%Z -> (indexOf_from k s q <> (-1)%Z <-> substring_of q s).
Proof.
  revert k. induction s as [|y s IH]; intros k Hk; simpl.
  - destruct (startsWith q []) eqn:E.
    + split; [intros _ | lia].
      apply startsWith_spec in E as [post E]. now exists [], post.
    + split; [congruence |].
      intros [pre [post H]]. destruct pre; [|discriminate].
      assert (startsWith q [] = true) by (apply startsWith_spec; now exists post).
      congruence.
  - destruct (startsWith q (y :: s)) eqn:E.
    + split; [intros _ | lia].
      apply startsWith_spec in E as [post E]. now exists [], post.
    + rewrite IH by lia. split.
      * intros [pre [post ->]]. now exists (y :: pre), post.
      * intros [pre [post H]]. destruct pre as [|z pre].
        -- assert (startsWith q (y :: s) = true)
             by (apply startsWith_spec; now exists post).
           congruence.
        -- injection H as _ ->. now exists pre, post.
Qed.

Lemma indexOf_spec (s q : jsstring) :
  negb (Z.eqb (indexOf s q) (-1)) = true <-> substring_of q s.
Proof.
  rewrite negb_true_iff, Z.eqb_neq. apply indexOf_from_spec. lia.
Qed.

(** [indexOf] answers a position at which the search string occurs, and
    no earlier position has it. *)
Lemma indexOf_from_first (k : Z) (s q : jsstring) (n : nat) :
  (0 <= k)%Z ->
  indexOf_from k s q = (k + Z.of_nat n)%Z ->
  startsWith q (skipn n s) = true /\
  forall m, m < n -> startsWith q (skipn m s) = false.
Proof.
  revert k n. induction s as [|y s IH]; intros k n Hk; simpl.
  - destruct (startsWith q []) eqn:E.
    + intros H. assert (n = 0) by lia. subst. simpl. split; [assumption | lia].
    + lia.
  - destruct (startsWith q (y :: s)) eqn:E.
    + intros H. assert (n = 0) by lia. subst. simpl. split; [assumption | lia].
    + intros H. destruct n as [|n].
      * destruct (indexOf_from_range (k + 1) s q) as [H1 | H1]; lia.
      * destruct (IH (k + 1)%Z n) as [H1 H2]; [lia | lia |].
        split; [exact H1 |].
        intros [|m] Hm; simpl; [exact E | apply H2; lia].
Qed.

Section Properties.

Variable env : Env.

(** On ASCII text the engine's [toLowerCase] is [ascii_lower]. *)
Hypothesis lower_ascii :
  forall s, is_ascii s = true -> toLowerCase env s = ascii_lower s.

(** ** Calls *)

(** A call reads the instance through [_normalize] only. *)
Lemma call_reads_normalize (depth : nat) (w w' : Widget) (f arg : jsval) :
  _normalize w = _normalize w' -> call env depth w f arg = call env depth w' f arg.
Proof.
  intros H. revert f arg. induction depth as [|depth IH]; intros f arg.
  - reflexivity.
  - destruct f as [| | | |fn|]; try reflexivity.
    destruct fn; simpl; try reflexivity; rewrite <- H, IH; reflexivity.
Qed.

Lemma call_default_normalize (depth : nat) (w : Widget) (s : jsstring) :
  call env (S depth) w (VFunction FDefaultNormalize) (VString s)
  = Ok (VString (toLowerCase env s)).
Proof. reflexivity. Qed.

Lemma call_default_factory (depth : nat) (w : Widget) (q : jsstring) (q' : jsval) :
  call env depth w (_normalize w) (VString q) = Ok q' ->
  call env (S depth) w (VFunction FDefaultFactory) (VString q)
  = Ok (VFunction (FDefaultPredicate q')).
Proof. intros H. simpl. rewrite H. reflexivity. Qed.

Lemma call_default_predicate (depth : nat) (w : Widget) (q' d d' : jsstring) :
  call env depth w (_normalize w) (VString d) = Ok (VString d') ->
  call env (S depth) w (VFunction (FDefaultPredicate (VString q'))) (VString d)
  = Ok (VBoolean (negb (Z.eqb (indexOf d' q') (-1)))).
Proof. intros H. simpl. rewrite H. reflexivity. Qed.

Lemma default_filter_default (depth : nat) (w : Widget) (q d : jsstring) :
  _normalize w = VFunction FDefaultNormalize ->
  default_filter env (S (S depth)) w q d
  = Ok (VBoolean (negb (Z.eqb (indexOf (toLowerCase env d) (toLowerCase env q)) (-1)))).
Proof.
  intros H. unfold default_filter.
  rewrite (call_default_factory (S depth) w q (VString (toLowerCase env q)))
    by (rewrite H; reflexivity).
  unfold rbind.
  apply call_default_predicate. rewrite H. reflexivity.
Qed.

(** C1 (as amended) -- For every query string q and record value d, the
    predicate that the default factory builds for q answers a boolean on
    d, and answers true exactly when the normalized d contains the
    normalized q as a substring, whenever the configured normalization
    answers strings for q and d.  The default normalization is
    lowercasing: with it the predicate answers true exactly when the
    lowercased d contains the lowercased q.  In particular the queries
    "colt" and "COLT" accept the record value "John Coltrane", and the
    queries "cole", "COLE" and "coln" reject it. *)
Theorem default_filter_contains (w : Widget) (depth : nat) :
  (forall q d q' d' : jsstring,
     call env (S depth) w (_normalize w) (VString q) = Ok (VString q') ->
     call env (S depth) w (_normalize w) (VString d) = Ok (VString d') ->
     exists b : bool,
       default_filter env (S (S depth)) w q d = Ok (VBoolean b) /\
       (b = true <-> substring_of q' d')) /\
  (_normalize w = VFunction FDefaultNormalize ->
   (forall q d : jsstring,
      exists b : bool,
        default_filter env (S (S depth)) w q d = Ok (VBoolean b) /\
        (b = true <-> substring_of (toLowerCase env q) (toLowerCase env d))) /\
   default_filter env (S (S depth)) w (js "colt") (js "John Coltrane")
     = Ok (VBoolean true) /\
   default_filter env (S (S depth)) w (js "COLT") (js "John Coltrane")
     = Ok (VBoolean true) /\
   default_filter env (S (S depth)) w (js "cole") (js "John Coltrane")
     = Ok (VBoolean false) /\
   default_filter env (S (S depth)) w (js "COLE") (js "John Coltrane")
     = Ok (VBoolean false) /\
   default_filter env (S (S depth)) w (js "coln") (js "John Coltrane")
     = Ok (VBoolean false)).
Proof.
  split.
  - intros q d q' d' Hq Hd. unfold default_filter.
    rewrite (call_default_factory (S depth) w q (VString q') Hq). unfold rbind.
    eexists. split; [apply call_default_predicate, Hd | apply indexOf_spec].
  - intros H. split.
    + intros q d. eexists. split; [apply default_filter_default, H |].
      apply indexOf_spec.
    + repeat split; rewrite default_filter_default by exact H;
        rewrite !lower_ascii by reflexivity; reflexivity.
Qed.

(** C7 -- In a widget whose normalization function is the default one,
    the default factory accepts every query string (it answers a
    predicate, without raising), and the predicate it builds for the
    empty query answers true for every string record value. *)
Theorem empty_query_matches_all (w : Widget) (depth : nat) :
  _normalize w = VFunction FDefaultNormalize ->
  (forall q : jsstring,
     exists p, call env (S (S depth)) w (VFunction FDefaultFactory) (VString q)
               = Ok (VFunction p)) /\
  (forall d : jsstring,
     default_filter env (S (S depth)) w [] d = Ok (VBoolean true)).
Proof.
  intros H. split.
  - intros q. eexists. apply call_default_factory. rewrite H. reflexivity.
  - intros d. rewrite default_filter_default by exact H.
    rewrite (lower_ascii []) by reflexivity. simpl.
    unfold indexOf. destruct (toLowerCase env d); reflexivity.
Qed.

(** C10 -- The default factory normalizes the query once, with the
    normalization function of the instance at the moment the factory is
    applied ([w1]), and the predicate it answers holds the result.  Each
    time the predicate is invoked, it normalizes the record value with the
    normalization function of the instance at that moment ([w2], any
    later state) and looks for the query it holds.  So when the
    normalization function has been replaced in between, the record value
    is normalized by the new function and compared with the query as the
    old one normalized it. *)
Theorem query_normalized_when_built (w1 w2 : Widget) (depth : nat) :
  (forall q : jsval,
     call env (S depth) w1 (VFunction FDefaultFactory) q
     = rbind (call env depth w1 (_normalize w1) q) (fun nq =>
       Ok (VFunction (FDefaultPredicate nq)))) /\
  (forall nq d : jsval,
     call env (S depth) w2 (VFunction (FDefaultPredicate nq)) d
     = rbind (call env depth w2 (_normalize w2) d) (fun nd =>
       rbind (call_indexOf env nd nq) (fun i =>
       Ok (VBoolean (negb (Z.eqb i (-1))))))) /\
  (forall q d q' d' : jsstring,
     call env depth w1 (_normalize w1) (VString q) = Ok (VString q') ->
     call env depth w2 (_normalize w2) (VString d) = Ok (VString d') ->
     call env (S depth) w1 (VFunction FDefaultFactory) (VString q)
       = Ok (VFunction (FDefaultPredicate (VString q'))) /\
     exists b : bool,
       call env (S depth) w2 (VFunction (FDefaultPredicate (VString q')))
            (VString d) = Ok (VBoolean b) /\
       (b = true <-> substring_of q' d')).
Proof.
  split; [reflexivity |]. split; [reflexivity |].
  intros q d q' d' H1 H2. split; [now apply call_default_factory |].
  eexists. split; [apply call_default_predicate, H2 | apply indexOf_spec].
Qed.

(** Whatever a closure of the file throws is the message of the group
    function, unless an application function threw it. *)
Lemma thrown_values (depth : nat) (w : Widget) (f arg v : jsval) :
  call env depth w f arg = Throw (Thrown v) ->
  v = VString GROUP_MESSAGE \/ exists id a, host env id a = Throw (Thrown v).
Proof.
  revert f arg. induction depth as [|depth IH]; intros f arg.
  - destruct f; discriminate.
  - destruct f as [| | | |fn|]; try discriminate.
    destruct fn as [| |query| |id]; simpl.
    + destruct arg; discriminate.
    + destruct (call env depth w (_normalize w) arg) eqn:E; simpl; [discriminate |].
      intros H. injection H as ->. exact (IH _ _ E).
    + destruct (call env depth w (_normalize w) arg) as [nd|e] eqn:E; simpl.
      * destruct nd; discriminate.
      * intros H. injection H as ->. exact (IH _ _ E).
    + intros H. injection H as <-. now left.
    + intros H. right. now exists id, arg.
Qed.

(** ** The group *)

(** C2 (as amended) -- The constructor completes and, by calling the
    inherited group accessor with one argument, installs a function as
    the group of the widget.  That function raises the fixed diagnostic
    message whenever it is called, with any argument.  The group accessor
    itself does not raise: with no argument it answers the installed
    function, with one it stores the argument and answers the instance;
    and whatever accessor the base class provides, if the constructor
    completes then that accessor has answered a call with one argument
    without raising.  The message is the only value that the closures of
    the file throw: any other thrown value comes from a function of the
    application. *)
Theorem group_function_throws (parent : element) (chartGroup : jsval) :
  let w := snd (textFilterWidget parent chartGroup) in
  fst (textFilterWidget parent chartGroup) = Ok tt /\
  _group w = VFunction FGroupThrower /\
  group [] w = (Ok (VFunction FGroupThrower), w) /\
  (forall v rest, group (v :: rest) w = (Ok VThis, set_group v w)) /\
  (forall depth w' arg,
     call env (S depth) w' (_group w) arg = Throw (Thrown (VString GROUP_MESSAGE))) /\
  (forall inherited_group : list jsval -> M jsval,
     fst (constructor_over inherited_group parent chartGroup BaseMixin_new) = Ok tt ->
     exists w', is_Ok (fst (inherited_group [VFunction FGroupThrower] w')) = true) /\
  (forall depth w' f arg v,
     call env depth w' f arg = Throw (Thrown v) ->
     v = VString GROUP_MESSAGE \/ exists id a, host env id a = Throw (Thrown v)).
Proof.
  repeat split; try reflexivity.
  - intros g. unfold constructor_over, bind, modify.
    match goal with
    | |- context [g ?args ?w0] =>
        destruct (g args w0) as [[v|e] w'] eqn:E; [intros _ | discriminate];
        exists w0; now rewrite E
    end.
  - intros depth w' f arg v. apply thrown_values.
Qed.

(** ** The accessors *)

(** C6 -- Each of [normalize], [placeHolder] and [filterFunctionFactory],
    called with no argument, answers the current value of its field and
    leaves the instance as it is; called with an argument [v] (of any
    value), it answers the instance, whose field is then [v]. *)
Theorem accessors_get_set (w : Widget) (v : jsval) (rest : list jsval) :
  (normalize [] w = (Ok (_normalize w), w) /\
   normalize (v :: rest) w = (Ok VThis, set_normalize v w) /\
   fst (normalize [] (snd (normalize (v :: rest) w))) = Ok v) /\
  (placeHolder [] w = (Ok (_placeHolder w), w) /\
   placeHolder (v :: rest) w = (Ok VThis, set_placeHolder v w) /\
   fst (placeHolder [] (snd (placeHolder (v :: rest) w))) = Ok v) /\
  (filterFunctionFactory [] w = (Ok (_filterFunctionFactory w), w) /\
   filterFunctionFactory (v :: rest) w = (Ok VThis, set_filterFunctionFactory v w) /\
   fst (filterFunctionFactory [] (snd (filterFunctionFactory (v :: rest) w))) = Ok v).
Proof. repeat split. Qed.

(** C9 -- Called with an argument, each accessor changes its own field
    only: [placeHolder] leaves the normalization function and the factory
    as they are, [normalize] the placeholder and the factory,
    [filterFunctionFactory] the placeholder and the normalization
    function; none of them touches the group, the dimension, the chart
    group, the document or the pending redraw requests. *)
Theorem accessors_frame (w : Widget) (v : jsval) (rest : list jsval) :
  (let w1 := snd (placeHolder (v :: rest) w) in
   _normalize w1 = _normalize w /\
   _filterFunctionFactory w1 = _filterFunctionFactory w /\
   set_placeHolder (_placeHolder w) w1 = w) /\
  (let w1 := snd (normalize (v :: rest) w) in
   _placeHolder w1 = _placeHolder w /\
   _filterFunctionFactory w1 = _filterFunctionFactory w /\
   set_normalize (_normalize w) w1 = w) /\
  (let w1 := snd (filterFunctionFactory (v :: rest) w) in
   _placeHolder w1 = _placeHolder w /\
   _normalize w1 = _normalize w /\
   set_filterFunctionFactory (_filterFunctionFactory w) w1 = w).
Proof. destruct w. repeat split. Qed.

(** ** The document *)

(** Induction over a document: a property of elements together with a
    property of lists of siblings. *)
Lemma element_forest_ind (P : element -> Prop) (Q : list element -> Prop) :
  Q [] ->
  (forall c rest, P c -> Q rest -> Q (c :: rest)) ->
  (forall e, Q (children e) -> P e) ->
  forall e, P e.
Proof.
  intros Hnil Hcons Hnode.
  fix IH 1. intros e. apply Hnode.
  destruct e as [t cl a l v d cs]. simpl.
  induction cs as [|c rest IHcs].
  - exact Hnil.
  - apply Hcons; [apply IH | exact IHcs].
Qed.

Lemma set_children_id (e : element) : set_children (children e) e = e.
Proof. destruct e; reflexivity. Qed.

Lemma set_root_id (w : Widget) : set_root (_root w) w = w.
Proof. destruct w; reflexivity. Qed.

Lemma set_root_set_root (r r' : element) (w : Widget) :
  set_root r' (set_root r w) = set_root r' w.
Proof. reflexivity. Qed.

Lemma querySelector_unfold (t : string) (e : element) :
  querySelector t e = querySelector_forest t (querySelector t) (children e).
Proof. destruct e; reflexivity. Qed.

Lemma querySelectorAll_unfold (t : string) (e : element) :
  querySelectorAll t e
  = querySelectorAll_forest t (querySelectorAll t) (children e).
Proof. destruct e; reflexivity. Qed.

Lemma count_tag_unfold (t : string) (e : element) :
  count_tag t e = count_forest t (count_tag t) (children e).
Proof. destruct e; reflexivity. Qed.

Lemma querySelector_forest_nonempty (t : string) (cs : list element) :
  querySelector_forest t (querySelector t) cs <> Some [].
Proof.
  induction cs as [|c rest IH]; simpl; [discriminate |].
  destruct (has_tag t c); [discriminate |].
  destruct (querySelector t c); [discriminate |].
  destruct (querySelector_forest t (querySelector t) rest) as [[|i p]|];
    simpl; try discriminate. now elim IH.
Qed.

Lemma querySelector_nonempty (t : string) (e : element) :
  querySelector t e <> Some [].
Proof. rewrite querySelector_unfold. apply querySelector_forest_nonempty. Qed.

Lemma remove_at_unfold (p : path) (e : element) :
  p <> [] -> remove_at p e = set_children (remove_forest p (children e)) e.
Proof. destruct p as [|i [|j p]]; [congruence | reflexivity | reflexivity]. Qed.

Lemma tag_remove_at (p : path) (e : element) : tag (remove_at p e) = tag e.
Proof. destruct p as [|i [|j p]]; destruct e; reflexivity. Qed.

Lemma remove_forest_shift (p : path) (c : element) (rest : list element) :
  p <> [] -> remove_forest (shift p) (c :: rest) = c :: remove_forest p rest.
Proof. destruct p as [|i [|j p]]; [congruence | reflexivity | reflexivity]. Qed.

(** No match for [querySelector]: no descendant has the tag. *)
Lemma count_tag_no_match (t : string) (e : element) :
  querySelector t e = None -> count_tag t e = 0.
Proof.
  revert e.
  apply (element_forest_ind
           (fun e => querySelector t e = None -> count_tag t e = 0)
           (fun cs => querySelector_forest t (querySelector t) cs = None ->
                      count_forest t (count_tag t) cs = 0)).
  - reflexivity.
  - intros c rest Hc Hrest. simpl.
    destruct (has_tag t c); [discriminate |].
    destruct (querySelector t c); [discriminate |].
    destruct (querySelector_forest t (querySelector t) rest); [discriminate |].
    intros _. rewrite Hc, Hrest; reflexivity.
  - intros e H. rewrite querySelector_unfold, count_tag_unfold. exact H.
Qed.

(** Removing the first match takes away at least one element with the
    tag (and the matches below it, if any). *)
Lemma count_tag_remove_first (t : string) (e : element) (p : path) :
  querySelector t e = Some p -> count_tag t (remove_at p e) < count_tag t e.
Proof.
  revert e p.
  apply (element_forest_ind
           (fun e => forall p, querySelector t e = Some p ->
                     count_tag t (remove_at p e) < count_tag t e)
           (fun cs => forall p,
                      querySelector_forest t (querySelector t) cs = Some p ->
                      count_forest t (count_tag t) (remove_forest p cs)
                      < count_forest t (count_tag t) cs)).
  - discriminate.
  - intros c rest Hc Hrest p. simpl.
    destruct (has_tag t c) eqn:Et.
    + intros H. injection H as <-. simpl. lia.
    + destruct (querySelector t c) as [q|] eqn:Eq.
      * intros H. injection H as <-.
        destruct q as [|j q]; [now elim (querySelector_nonempty t c) |].
        specialize (Hc _ eq_refl).
        change (remove_forest (0 :: j :: q) (c :: rest))
          with (remove_at (j :: q) c :: rest).
        change (count_forest t (count_tag t) (remove_at (j :: q) c :: rest))
          with ((if has_tag t (remove_at (j :: q) c) then 1 else 0)
                + count_tag t (remove_at (j :: q) c)
                + count_forest t (count_tag t) rest).
        unfold has_tag in *. rewrite tag_remove_at, Et. lia.
      * destruct (querySelector_forest t (querySelector t) rest) as [q|] eqn:Er;
          [| discriminate].
        intros H. injection H as <-.
        assert (q <> []) by (intros ->; now elim (querySelector_forest_nonempty t rest)).
        rewrite remove_forest_shift by assumption.
        specialize (Hrest _ eq_refl). simpl count_forest. rewrite Et. lia.
  - intros e H p Hp.
    assert (p <> []) by (intros ->; now elim (querySelector_nonempty t e)).
    rewrite remove_at_unfold by assumption.
    rewrite querySelector_unfold in Hp.
    rewrite (count_tag_unfold t e).
    replace (count_tag t (set_children (remove_forest p (children e)) e))
      with (count_forest t (count_tag t) (remove_forest p (children e)))
      by (destruct e; reflexivity).
    now apply H.
Qed.

Lemma count_without_first_input (r : element) :
  count_tag "input" r <= 1 -> count_tag "input" (without_first_input r) = 0.
Proof.
  intros H. unfold without_first_input.
  destruct (querySelector "input" r) as [q|] eqn:E.
  - pose proof (count_tag_remove_first _ _ _ E). lia.
  - now apply count_tag_no_match.
Qed.

Lemma count_forest_app (t : string) (l l' : list element) :
  count_forest t (count_tag t) (l ++ l')
  = count_forest t (count_tag t) l + count_forest t (count_tag t) l'.
Proof. induction l as [|c l IH]; simpl; [reflexivity | rewrite IH; lia]. Qed.

(** *** Attribute updates keep the skeleton *)

Lemma map_alter_nth {A B} (g : A -> B) (f : A -> A) (i : nat) (l : list A) :
  (forall x, g (f x) = g x) -> map g (alter_nth i f l) = map g l.
Proof.
  intros H. revert i. induction l as [|x l IH]; intros [|i]; simpl;
    try reflexivity; [now rewrite H | now rewrite IH].
Qed.

Lemma skeleton_update_at (p : path) (f : element -> element) (e : element) :
  (forall x, skeleton (f x) = skeleton x) ->
  skeleton (update_at p f e) = skeleton e.
Proof.
  intros H. revert e. induction p as [|i p IH]; intros e; simpl; [apply H |].
  destruct e as [t cl a l v d cs]; simpl. f_equal.
  now apply map_alter_nth.
Qed.

Lemma skeleton_setAttribute (name : string) (s : jsstring) (e : element) :
  skeleton (setAttribute name s e) = skeleton e.
Proof. destruct e; reflexivity. Qed.

Lemma skeleton_removeAttribute (name : string) (e : element) :
  skeleton (removeAttribute name e) = skeleton e.
Proof. destruct e; reflexivity. Qed.

Lemma count_skeleton (t : string) (e : element) :
  count_tag t (skeleton e) = count_tag t e.
Proof.
  revert e.
  apply (element_forest_ind
           (fun e => count_tag t (skeleton e) = count_tag t e)
           (fun cs => count_forest t (count_tag t) (map skeleton cs)
                      = count_forest t (count_tag t) cs)).
  - reflexivity.
  - intros c rest Hc Hrest. simpl. rewrite Hc, Hrest.
    replace (has_tag t (skeleton c)) with (has_tag t c)
      by (destruct c; reflexivity).
    reflexivity.
  - intros e H. destruct e as [tg cl a l v d cs]. simpl in *. exact H.
Qed.

Lemma get_at_skeleton (p : path) (e : element) :
  get_at p (skeleton e) = option_map skeleton (get_at p e).
Proof.
  revert e. induction p as [|i p IH]; intros e; [reflexivity |].
  destruct e as [tg cl a l v d cs]. simpl.
  rewrite nth_error_map. destruct (nth_error cs i); simpl; [apply IH | reflexivity].
Qed.

Lemma alter_nth_app_last {A} (f : A -> A) (l : list A) (x : A) :
  alter_nth (List.length l) f (l ++ [x]) = l ++ [f x].
Proof. induction l as [|y l IH]; simpl; [reflexivity | now rewrite IH]. Qed.

Lemma nth_error_app_last {A} (l : list A) (x : A) :
  nth_error (l ++ [x]) (List.length l) = Some x.
Proof. induction l as [|y l IH]; simpl; [reflexivity | exact IH]. Qed.

(** An attribute update on one element changes the document only, and
    only its attributes, whether it completes or throws. *)
Lemma attr_at_frame (depth : nat) (name : string) (v : jsval) (p : path)
  (w : Widget) :
  exists r', snd (attr_at env depth name v p w) = set_root r' w /\
             skeleton r' = skeleton (_root w).
Proof.
  unfold attr_at.
  assert (Hset : forall s, skeleton (update_at p (setAttribute name s) (_root w))
                           = skeleton (_root w))
    by (intros s; apply skeleton_update_at, skeleton_setAttribute).
  assert (Hrem : skeleton (update_at p (removeAttribute name) (_root w))
                 = skeleton (_root w))
    by (apply skeleton_update_at, skeleton_removeAttribute).
  assert (Hid : exists r', w = set_root r' w /\ skeleton r' = skeleton (_root w))
    by (exists (_root w); now rewrite set_root_id).
  destruct (get_at p (_root w)) as [e|]; [| exact Hid].
  destruct v as [| | | |fn|]; simpl; try (eexists; split; [reflexivity | auto]).
  destruct (call env depth w (VFunction fn)
              match datum e with Some d => d | None => VUndefined end)
    as [[| | | | |]|x]; simpl; try (eexists; split; [reflexivity | auto]).
  exact Hid.
Qed.

Lemma forEach_attr_frame (depth : nat) (name : string) (v : jsval)
  (sel : selection) (w : Widget) :
  exists r', snd (forEach (attr_at env depth name v) sel w) = set_root r' w /\
             skeleton r' = skeleton (_root w).
Proof.
  revert w. induction sel as [|p sel IH]; intros w.
  - exists (_root w). now rewrite set_root_id.
  - simpl. unfold bind.
    destruct (attr_at_frame depth name v p w) as [r1 [H1 H2]].
    destruct (attr_at env depth name v p w) as [[u|x] w1]; simpl in H1; subst w1.
    + destruct (IH (set_root r1 w)) as [r2 [H3 H4]].
      exists r2. rewrite H3. split; [reflexivity |]. now rewrite H4.
    + now exists r1.
Qed.

(** Redraw changes the document only, and only its attributes. *)
Lemma doRedraw_frame (depth : nat) (w : Widget) :
  exists r', snd (_doRedraw env depth w) = set_root r' w /\
             skeleton r' = skeleton (_root w).
Proof.
  unfold _doRedraw, root, d3_selectAll, d3_attr, bind, ret, get.
  match goal with
  | |- context [forEach ?f ?sel w] =>
      destruct (forEach_attr_frame depth "placeholder" (_placeHolder w) sel w)
        as [r' [H1 H2]];
      destruct (forEach f sel w) as [[u|x] w1]
  end; simpl in *; subst; now exists r'.
Qed.

Lemma delete_alter_nth {A} (g : A -> A) (i : nat) (l : list A) :
  delete_nth i (alter_nth i g l) = delete_nth i l.
Proof.
  revert i. induction l as [|x l IH]; intros [|i]; simpl; try reflexivity.
  now rewrite IH.
Qed.

Lemma alter_alter_nth {A} (g h : A -> A) (i : nat) (l : list A) :
  (forall x, g (h x) = g x) ->
  alter_nth i g (alter_nth i h l) = alter_nth i g l.
Proof.
  intros H. revert i. induction l as [|x l IH]; intros [|i]; simpl;
    try reflexivity; [now rewrite H | now rewrite IH].
Qed.

(** What happened to an element does not matter once it is detached. *)
Lemma remove_at_update_at (p : path) (f : element -> element) (e : element) :
  p <> [] -> remove_at p (update_at p f e) = remove_at p e.
Proof.
  revert e. induction p as [|i p IH]; intros e Hp; [congruence |].
  destruct e as [tg cl a l v d cs]. destruct p as [|j p].
  - cbn [remove_at update_at set_children children tag classes attrs
           listeners value datum].
    unfold set_children; cbn. now rewrite delete_alter_nth.
  - cbn [remove_at update_at set_children children tag classes attrs
           listeners value datum].
    unfold set_children; cbn. f_equal. apply alter_alter_nth.
    intros x. apply IH. discriminate.
Qed.

(** [this.select('input').remove()]. *)
Lemma select_remove_steps (w : Widget) :
  (s <- select "input" ;; d3_remove s) w
  = (Ok tt, set_root (without_first_input (_root w)) w).
Proof.
  unfold select, root, d3_select, d3_remove, bind, ret, modify, without_first_input.
  cbn [flat_map get_at app].
  destruct (querySelector "input" (_root w)) as [q|] eqn:Eq; cbn.
  - destruct (datum (_root w)); cbn; [rewrite remove_at_update_at |]; try reflexivity.
    intros ->. now elim (querySelector_nonempty "input" (_root w)).
  - reflexivity.
Qed.

(** The steps of render before the placeholder is applied. *)
Lemma doRender_steps (depth : nat) (w : Widget) :
  let r1 := without_first_input (_root w) in
  let w4 := set_root
              (set_children (children r1 ++ [rendered_input (datum r1)]) r1)
              (set_input (Some [[List.length (children r1)]]) w) in
  _doRender env depth w
  = (match fst (_doRedraw env depth w4) with
     | Ok _ => Ok VThis
     | Throw e => Throw e
     end, snd (_doRedraw env depth w4)).
Proof.
  intros r1 w4.
  change (_doRender env depth w)
    with (match (s <- select "input" ;; d3_remove s) w with
          | (Ok _, w') =>
              (i <- d3_append "input" [[]] ;;
               d3_classed INPUT_CSS_CLASS true i ;;
               modify (set_input (Some i)) ;;
               d3_on "input" FilterOnInput i ;;
               _doRedraw env depth ;;
               ret VThis) w'
          | (Throw e, w') => (Throw e, w')
          end).
  rewrite select_remove_steps.
  unfold d3_append, d3_classed, d3_on.
  unfold bind at 1 2 3 4 5. unfold ret, modify.
  cbn [flat_map get_at app fold_right fold_left update_at _root set_root set_input].
  fold r1.
  lazymatch goal with
  | |- (let (_, _) := _doRedraw env depth ?x in _) = _ => replace x with w4
  end.
  - destruct (_doRedraw env depth w4) as [[u|x'] w']; reflexivity.
  - subst w4. clearbody r1. destruct r1 as [tg cl a l v d cs].
    cbn [children set_children datum tag classes attrs listeners value].
    rewrite !alter_nth_app_last. destruct w; reflexivity.
Qed.

(** ** Render *)

(** The document after render, attributes apart: the first input below
    the mount point is gone and a new input is its last child. *)
Lemma doRender_skeleton (depth : nat) (w : Widget) :
  let r1 := without_first_input (_root w) in
  skeleton (_root (snd (_doRender env depth w)))
  = skeleton (set_children (children r1 ++ [rendered_input (datum r1)]) r1).
Proof.
  intros r1. rewrite doRender_steps. cbn [snd].
  fold r1.
  destruct (doRedraw_frame depth
              (set_root (set_children (children r1 ++ [rendered_input (datum r1)]) r1)
                 (set_input (Some [[List.length (children r1)]]) w)))
    as [r' [H1 H2]].
  rewrite H1. exact H2.
Qed.

Lemma doRender_count (depth : nat) (w : Widget) :
  count_tag "input" (_root (snd (_doRender env depth w)))
  = count_tag "input" (without_first_input (_root w)) + 1.
Proof.
  rewrite <- count_skeleton, doRender_skeleton, count_skeleton.
  rewrite (count_tag_unfold _ (without_first_input (_root w))).
  destruct (without_first_input (_root w)) as [tg cl a l v d cs].
  cbn [children datum set_children count_tag].
  rewrite count_forest_app. reflexivity.
Qed.

(** C4 (as amended) -- Render detaches the first input element below the
    mount point, if there is one, with what that element contains, and
    appends one new input with the fixed style class and the input
    listener as the last child of the mount point; render changes nothing
    else in the structure of the document.  So the inputs below the mount
    point after render are those that the detached element left behind
    and the new one.  When the mount point holds at most one input
    element before render, it holds exactly one after render, and still
    exactly one after any number of further renders. *)
Theorem render_leaves_one_input (depth : nat) (w : Widget) :
  (let r1 := without_first_input (_root w) in
   skeleton (_root (snd (_doRender env depth w)))
   = skeleton (set_children (children r1 ++ [rendered_input (datum r1)]) r1)) /\
  count_tag "input" (_root (snd (_doRender env depth w)))
    = count_tag "input" (without_first_input (_root w)) + 1 /\
  (count_tag "input" (_root w) <= 1 ->
   count_tag "input" (_root (snd (_doRender env depth w))) = 1 /\
   (forall n, count_tag "input" (_root (render_times env depth (S n) w)) = 1)).
Proof.
  split; [apply doRender_skeleton |]. split; [apply doRender_count |].
  intros H.
  assert (Hone : forall w0, count_tag "input" (_root w0) <= 1 ->
                 count_tag "input" (_root (snd (_doRender env depth w0))) = 1).
  { intros w0 H0. rewrite doRender_count.
    now rewrite count_without_first_input. }
  split; [now apply Hone |].
  intros n. revert w H. induction n as [|n IH]; intros w H.
  - simpl. now apply Hone.
  - change (render_times env depth (S (S n)) w)
      with (render_times env depth (S n) (snd (_doRender env depth w))).
    apply IH. rewrite Hone by assumption. lia.
Qed.

(** ** Redraw *)

Lemma alter_nth_fixed {A} (g : A -> A) (i : nat) (l : list A) :
  match nth_error l i with
  | Some x => g x = x
  | None => True
  end -> alter_nth i g l = l.
Proof.
  revert i. induction l as [|x l IH]; intros [|i] H; simpl in *;
    try reflexivity; [now rewrite H | now rewrite IH].
Qed.

Lemma update_at_invalid (p : path) (f : element -> element) (e : element) :
  get_at p e = None -> update_at p f e = e.
Proof.
  revert e. induction p as [|i p IH]; intros e; simpl; [discriminate |].
  intros H. destruct e as [tg cl a l v d cs]; simpl in *.
  unfold set_children; simpl. f_equal.
  apply alter_nth_fixed.
  destruct (nth_error cs i); [now apply IH | exact I].
Qed.

Lemma attr_at_string (depth : nat) (name : string) (s : jsstring) (p : path)
  (w : Widget) :
  attr_at env depth name (VString s) p w
  = (Ok tt, set_root (update_at p (setAttribute name s) (_root w)) w).
Proof.
  unfold attr_at. destruct (get_at p (_root w)) eqn:E; [reflexivity |].
  rewrite update_at_invalid by exact E. now rewrite set_root_id.
Qed.

Lemma forEach_attr_string (depth : nat) (name : string) (s : jsstring)
  (sel : selection) (w : Widget) :
  forEach (attr_at env depth name (VString s)) sel w
  = (Ok tt,
     set_root (fold_left (fun r p => update_at p (setAttribute name s) r)
                 sel (_root w)) w).
Proof.
  revert w. induction sel as [|p sel IH]; intros w; simpl.
  - unfold ret. now rewrite set_root_id.
  - unfold bind. rewrite attr_at_string, IH. reflexivity.
Qed.

Section EachTagged.

Variable t : string.
Variable f : element -> element.
Hypothesis f_children : forall cs e, f (set_children cs e) = set_children cs (f e).

Lemma f_keeps_children (e : element) : children (f e) = children e.
Proof.
  rewrite <- (set_children_id e) at 1. rewrite f_children.
  destruct (f e); reflexivity.
Qed.

Lemma update_at_unfold (p : path) (e : element) :
  p <> [] -> update_at p f e = set_children (update_forest p f (children e)) e.
Proof. destruct p; [congruence | reflexivity]. Qed.

Lemma fold_update_at_forest (ps : list path) (e : element) :
  Forall (fun p => p <> []) ps ->
  fold_left (fun r p => update_at p f r) ps e
  = set_children (fold_left (fun cs p => update_forest p f cs) ps (children e)) e.
Proof.
  intros H. revert e. induction H as [|p ps Hp Hps IH]; intros e; simpl.
  - now rewrite set_children_id.
  - rewrite IH, (update_at_unfold p e) by assumption.
    destruct e; reflexivity.
Qed.

Lemma querySelectorAll_forest_nonempty (cs : list element) :
  Forall (fun p => p <> []) (querySelectorAll_forest t (querySelectorAll t) cs).
Proof.
  induction cs as [|c rest IH]; simpl; [constructor |].
  rewrite !Forall_app. repeat split.
  - destruct (has_tag t c); repeat constructor; discriminate.
  - apply Forall_map, Forall_forall. discriminate.
  - apply Forall_map. eapply Forall_impl; [| exact IH].
    intros [|i p]; simpl; [congruence | discriminate].
Qed.

Lemma querySelectorAll_nonempty (e : element) :
  Forall (fun p => p <> []) (querySelectorAll t e).
Proof. rewrite querySelectorAll_unfold. apply querySelectorAll_forest_nonempty. Qed.

Lemma fold_update_forest_zero (ps : list path) (c : element) (rest : list element) :
  fold_left (fun cs p => update_forest p f cs) (map (cons 0) ps) (c :: rest)
  = fold_left (fun r p => update_at p f r) ps c :: rest.
Proof.
  revert c. induction ps as [|p ps IH]; intros c; simpl; [reflexivity | apply IH].
Qed.

Lemma fold_update_forest_shift (ps : list path) (c : element) (rest : list element) :
  fold_left (fun cs p => update_forest p f cs) (map shift ps) (c :: rest)
  = c :: fold_left (fun cs p => update_forest p f cs) ps rest.
Proof.
  revert rest. induction ps as [|p ps IH]; intros rest; simpl; [reflexivity |].
  destruct p as [|i p]; simpl; apply IH.
Qed.

Lemma fold_update_at_commute (ps : list path) (e : element) :
  Forall (fun p => p <> []) ps ->
  fold_left (fun r p => update_at p f r) ps (f e)
  = f (fold_left (fun r p => update_at p f r) ps e).
Proof.
  intros H. rewrite !fold_update_at_forest by assumption.
  now rewrite f_keeps_children, f_children.
Qed.

Lemma each_tagged_unfold (e : element) :
  each_tagged t f e
  = set_children
      (map (fun c => if has_tag t c then f (each_tagged t f c)
                     else each_tagged t f c) (children e)) e.
Proof. destruct e; reflexivity. Qed.

(** Updating the elements of [selectAll(t)] one after the other is
    updating every descendant with the tag. *)
Lemma fold_update_querySelectorAll (e : element) :
  fold_left (fun r p => update_at p f r) (querySelectorAll t e) e
  = each_tagged t f e.
Proof.
  revert e.
  apply (element_forest_ind
           (fun e => fold_left (fun r p => update_at p f r) (querySelectorAll t e) e
                     = each_tagged t f e)
           (fun cs => fold_left (fun cs' p => update_forest p f cs')
                        (querySelectorAll_forest t (querySelectorAll t) cs) cs
                      = map (fun c => if has_tag t c then f (each_tagged t f c)
                                      else each_tagged t f c) cs)).
  - reflexivity.
  - intros c rest Hc Hrest.
    change (querySelectorAll_forest t (querySelectorAll t) (c :: rest))
      with ((if has_tag t c then [[0]] else [])
              ++ map (cons 0) (querySelectorAll t c)
              ++ map shift (querySelectorAll_forest t (querySelectorAll t) rest)).
    cbn [map].
    rewrite !fold_left_app.
    destruct (has_tag t c);
      cbn [fold_left update_forest alter_nth update_at];
      rewrite fold_update_forest_zero, fold_update_forest_shift, Hrest; f_equal.
    + rewrite fold_update_at_commute by apply querySelectorAll_nonempty.
      now rewrite Hc.
    + exact Hc.
  - intros e H.
    rewrite fold_update_at_forest by apply querySelectorAll_nonempty.
    rewrite each_tagged_unfold. f_equal.
    rewrite querySelectorAll_unfold. exact H.
Qed.

End EachTagged.

Lemma map_app_nil {A} (l : list (list A)) : map (app []) l = l.
Proof. induction l as [|x l IH]; [reflexivity |]. cbn [map]. now rewrite IH. Qed.

Lemma tag_setAttribute (name : string) (s : jsstring) (e : element) :
  tag (setAttribute name s e) = tag e.
Proof. destruct e; reflexivity. Qed.

Lemma setAttribute_set_children (name : string) (s : jsstring)
  (cs : list element) (e : element) :
  setAttribute name s (set_children cs e) = set_children cs (setAttribute name s e).
Proof. destruct e; reflexivity. Qed.

(** Redraw with a string as placeholder: every input below the mount
    point gets the attribute, and nothing else happens. *)
Lemma doRedraw_string (depth : nat) (w : Widget) (P : jsstring) :
  _placeHolder w = VString P ->
  _doRedraw env depth w
  = (Ok VThis,
     set_root (each_tagged "input" (setAttribute "placeholder" P) (_root w)) w).
Proof.
  intros H.
  unfold _doRedraw, root, d3_selectAll, d3_attr, bind, ret, get.
  cbn [flat_map get_at]. rewrite H, app_nil_r, map_app_nil.
  rewrite forEach_attr_string.
  rewrite fold_update_querySelectorAll;
    [reflexivity | intros; apply setAttribute_set_children].
Qed.

Lemma jsstring_eqb_eq (a b : jsstring) : jsstring_eqb a b = true <-> a = b.
Proof.
  revert b. induction a as [|x a IH]; intros [|y b]; simpl;
    try (split; [discriminate | discriminate]); [tauto |].
  rewrite andb_true_iff, N.eqb_eq, IH. split.
  - intros [-> ->]. reflexivity.
  - intros H. injection H as -> ->. auto.
Qed.

Lemma get_assoc_set_assoc {A} (name : string) (v : A) (l : list (string * A)) :
  get_assoc name (set_assoc name v l) = Some v.
Proof.
  induction l as [|[n x] l IH]; simpl.
  - now rewrite String.eqb_refl.
  - destruct (String.eqb n name) eqn:E; simpl; rewrite E; [reflexivity | exact IH].
Qed.

Lemma remove_assoc_set_assoc {A} (name : string) (v : A) (l : list (string * A)) :
  remove_assoc name (set_assoc name v l) = remove_assoc name l.
Proof.
  unfold remove_assoc. induction l as [|[n x] l IH]; simpl.
  - now rewrite String.eqb_refl.
  - destruct (String.eqb n name) eqn:E; simpl; rewrite E; simpl;
      [reflexivity | now rewrite IH].
Qed.

Lemma getAttribute_setAttribute (name : string) (s : jsstring) (e : element) :
  getAttribute name (setAttribute name s e) = Some s.
Proof. destruct e. apply get_assoc_set_assoc. Qed.

Lemma tag_each_tagged (t : string) (f : element -> element) (e : element) :
  tag (each_tagged t f e) = tag e.
Proof. destruct e; reflexivity. Qed.

Lemma classes_each_tagged (t : string) (f : element -> element) (e : element) :
  classes (each_tagged t f e) = classes e.
Proof. destruct e; reflexivity. Qed.

Lemma attrs_each_tagged (t : string) (f : element -> element) (e : element) :
  attrs (each_tagged t f e) = attrs e.
Proof. destruct e; reflexivity. Qed.

(** What redraw leaves at a path below the mount point. *)
Lemma get_at_each_tagged (t name : string) (s : jsstring) (p : path)
  (e x : element) :
  p <> [] ->
  get_at p (each_tagged t (setAttribute name s) e) = Some x ->
  exists x0, get_at p e = Some x0 /\ tag x = tag x0 /\ classes x = classes x0 /\
             attrs x = (if has_tag t x0 then set_assoc name s (attrs x0)
                        else attrs x0).
Proof.
  revert e. induction p as [|i p IH]; intros e Hp; [congruence |].
  rewrite each_tagged_unfold.
  destruct e as [tg cl a l v d cs].
  cbn [get_at children set_children].
  rewrite nth_error_map.
  destruct (nth_error cs i) as [c|]; [| discriminate].
  cbn [option_map].
  destruct p as [|j p].
  - cbn [get_at]. intros H. injection H as <-. exists c.
    split; [reflexivity |].
    destruct (has_tag t c); destruct c; simpl; auto.
  - destruct (has_tag t c).
    + intros H.
      assert (H' : get_at (j :: p) (each_tagged t (setAttribute name s) c) = Some x)
        by (destruct (each_tagged t (setAttribute name s) c); exact H).
      apply IH in H'; [exact H' | discriminate].
    + intros H. apply IH in H; [exact H | discriminate].
Qed.

Lemma skeleton_each_tagged (t name : string) (s : jsstring) (e : element) :
  skeleton (each_tagged t (setAttribute name s) e) = skeleton e.
Proof.
  revert e.
  apply (element_forest_ind
           (fun e => skeleton (each_tagged t (setAttribute name s) e) = skeleton e)
           (fun cs => map skeleton
                        (map (fun c => if has_tag t c
                                       then setAttribute name s
                                              (each_tagged t (setAttribute name s) c)
                                       else each_tagged t (setAttribute name s) c) cs)
                      = map skeleton cs)).
  - reflexivity.
  - intros c rest Hc Hrest. cbn [map]. rewrite Hrest. f_equal.
    destruct (has_tag t c); [rewrite skeleton_setAttribute |]; exact Hc.
  - intros e H. destruct e as [tg cl a l v d cs]. simpl in *. now rewrite H.
Qed.

Lemma forget_attr_unfold (t name : string) (e : element) :
  forget_attr t name e
  = set_children (forget_forest t name (forget_attr t name) (children e)) e.
Proof. destruct e; reflexivity. Qed.

(** Redraw changes nothing but the attribute it sets. *)
Lemma forget_attr_each_tagged (t name : string) (s : jsstring) (e : element) :
  forget_attr t name (each_tagged t (setAttribute name s) e) = forget_attr t name e.
Proof.
  revert e.
  apply (element_forest_ind
           (fun e => forget_attr t name (each_tagged t (setAttribute name s) e)
                     = forget_attr t name e)
           (fun cs => forget_forest t name (forget_attr t name)
                        (map (fun c => if has_tag t c
                                       then setAttribute name s
                                              (each_tagged t (setAttribute name s) c)
                                       else each_tagged t (setAttribute name s) c) cs)
                      = forget_forest t name (forget_attr t name) cs)).
  - reflexivity.
  - intros c rest Hc Hrest. cbn [map].
    change (forget_forest t name (forget_attr t name) (?x :: ?l))
      with ((if has_tag t x then removeAttribute name (forget_attr t name x)
             else forget_attr t name x)
              :: forget_forest t name (forget_attr t name) l).
    rewrite Hrest. f_equal.
    destruct (has_tag t c) eqn:Et.
    + unfold has_tag in *. rewrite tag_setAttribute, tag_each_tagged, Et.
      rewrite <- Hc.
      destruct (each_tagged t (setAttribute name s) c) as [tg cl a l v d cs].
      unfold removeAttribute, setAttribute, set_attrs. simpl.
      now rewrite remove_assoc_set_assoc.
    + unfold has_tag in *. rewrite tag_each_tagged, Et. exact Hc.
  - intros e H. rewrite each_tagged_unfold, !forget_attr_unfold.
    destruct e as [tg cl a l v d cs]. simpl in *. now rewrite H.
Qed.

(** The element that render created is the one [_input] selects. *)
Lemma doRender_input (depth : nat) (w : Widget) :
  let w' := snd (_doRender env depth w) in
  let r1 := without_first_input (_root w) in
  let n := List.length (children r1) in
  _input w' = Some [[n]] /\
  exists e, get_at [n] (_root w') = Some e /\
            skeleton e = skeleton (rendered_input (datum r1)).
Proof.
  intros w' r1 n. split.
  - subst w'. rewrite doRender_steps. cbn [snd]. fold r1. fold n.
    destruct (doRedraw_frame depth
                (set_root (set_children (children r1 ++ [rendered_input (datum r1)]) r1)
                   (set_input (Some [[n]]) w))) as [r' [H1 _]].
    rewrite H1. reflexivity.
  - pose proof (doRender_skeleton depth w) as H. cbn zeta in H. fold r1 w' in H.
    assert (G : get_at [n] (skeleton (_root w'))
                = Some (skeleton (rendered_input (datum r1)))).
    { rewrite H. subst n. destruct r1 as [tg cl a l v d cs].
      cbn [children set_children skeleton get_at datum].
      rewrite map_app. cbn [map].
      rewrite <- (length_map skeleton cs), nth_error_app_last. reflexivity. }
    rewrite get_at_skeleton in G.
    destruct (get_at [n] (_root w')) as [e|]; [| discriminate].
    exists e. split; [reflexivity |]. now injection G.
Qed.

(** ** The input listener *)

Lemma nth_error_alter_nth {A} (g : A -> A) (i : nat) (l : list A) :
  nth_error (alter_nth i g l) i = option_map g (nth_error l i).
Proof.
  revert i. induction l as [|x l IH]; intros [|i]; simpl; try reflexivity.
  apply IH.
Qed.

Lemma get_at_update_at (p : path) (f : element -> element) (e x : element) :
  get_at p e = Some x -> get_at p (update_at p f e) = Some (f x).
Proof.
  revert e. induction p as [|i p IH]; intros e; simpl.
  - intros H. now injection H as ->.
  - destruct e as [tg cl a l v d cs]; simpl.
    rewrite nth_error_alter_nth.
    destruct (nth_error cs i); simpl; [apply IH | discriminate].
Qed.

(** C3 (as amended) -- For every edit of the text of an element on which
    render registered the listener, in a widget bound to a dimension: the
    listener applies the filter-function factory configured at that
    moment to the text as it is in the input, not normalized.  If the
    factory answers a value, that value becomes the active filter
    function of the dimension and one request, for the callback that
    calls [redrawAll] and with the fixed delay, is handed to the debounced
    trigger; nothing else changes.  If the factory raises, the listener
    raises in the same way and neither the dimension nor the pending
    requests change.  With the default factory, the predicate installed
    is the one built from the text as normalized by the normalization
    function configured at that moment. *)
Theorem input_listener_installs_filter
  (depth : nat) (w : Widget) (p : path) (this : element) (text : jsstring)
  (dim : Dimension) :
  get_at p (_root w) = Some this ->
  get_assoc "input" (listeners this) = Some FilterOnInput ->
  _dimension w = Some dim ->
  let w1 := set_root (update_at p (set_value text) (_root w)) w in
  input_event env depth p text w
  = match call env depth w (_filterFunctionFactory w) (VString text) with
    | Ok pred =>
        (Ok tt,
         set_triggered (triggered w ++ [(RedrawAllCallback, EVENT_DELAY env)])
           (set_dimension (Some {| active_filter := Some pred |}) w1))
    | Throw e => (Throw e, w1)
    end /\
  (_filterFunctionFactory w = VFunction FDefaultFactory ->
   forall depth' q', depth = S depth' ->
     call env depth' w (_normalize w) (VString text) = Ok q' ->
     call env depth w (_filterFunctionFactory w) (VString text)
     = Ok (VFunction (FDefaultPredicate q'))).
Proof.
  intros Hthis Hl Hd w1. split.
  - unfold input_event, bind, modify, get.
    cbn [_root set_root].
    rewrite (get_at_update_at p (set_value text) (_root w) this Hthis).
    replace (listeners (set_value text this)) with (listeners this)
      by (destruct this; reflexivity).
    rewrite Hl.
    replace (value (set_value text this)) with text by (destruct this; reflexivity).
    unfold input_listener, dimension, bind, get, lift, filterFunction,
      events_trigger, modify, throw.
    fold w1.
    replace (_dimension w1) with (Some dim) by (rewrite <- Hd; reflexivity).
    replace (_filterFunctionFactory w1) with (_filterFunctionFactory w) by reflexivity.
    rewrite (call_reads_normalize depth w1 w) by reflexivity.
    destruct (call env depth w (_filterFunctionFactory w) (VString text));
      reflexivity.
  - intros Hf depth' q' -> Hq. rewrite Hf. now apply call_default_factory.
Qed.

(** ** Totality *)

Lemma forEach_attr_ok (depth : nat) (name : string) (v : jsval)
  (sel : selection) (w : Widget) :
  is_function v = false ->
  fst (forEach (attr_at env depth name v) sel w) = Ok tt.
Proof.
  intros Hv. revert w. induction sel as [|p sel IH]; intros w; [reflexivity |].
  simpl. unfold bind.
  assert (E : exists w1, attr_at env depth name v p w = (Ok tt, w1)).
  { unfold attr_at. destruct (get_at p (_root w)); [| now eexists].
    destruct v; try discriminate; now eexists. }
  destruct E as [w1 ->]. apply IH.
Qed.

Lemma doRedraw_ok (depth : nat) (w : Widget) :
  is_function (_placeHolder w) = false -> fst (_doRedraw env depth w) = Ok VThis.
Proof.
  intros H. unfold _doRedraw, root, d3_selectAll, d3_attr, bind, ret, get.
  match goal with
  | |- context [forEach ?f ?sel w] =>
      pose proof (forEach_attr_ok depth "placeholder" _ sel w H) as E;
      destruct (forEach f sel w) as [[[]|x] w1]
  end; [reflexivity | discriminate].
Qed.

Lemma doRender_ok (depth : nat) (w : Widget) :
  is_function (_placeHolder w) = false -> fst (_doRender env depth w) = Ok VThis.
Proof.
  intros H. rewrite doRender_steps. cbn [fst].
  rewrite doRedraw_ok; [reflexivity | exact H].
Qed.

(** C8 (as amended) -- The three accessors never raise, and the default
    normalization never raises on a string.  The default factory and the
    predicates it builds never raise on strings as long as the configured
    normalization function answers a string for every string, which the
    default normalization does.  Redraw and render never raise as long as
    the placeholder is a string, a boolean, null or undefined.  The only
    value that the closures of the file throw is the message of the group
    function. *)
Theorem operations_total (depth : nat) (w : Widget) :
  (forall args,
     is_Ok (fst (normalize args w)) = true /\
     is_Ok (fst (placeHolder args w)) = true /\
     is_Ok (fst (filterFunctionFactory args w)) = true) /\
  (forall s, call env (S depth) w (VFunction FDefaultNormalize) (VString s)
             = Ok (VString (toLowerCase env s))) /\
  (normalizes_strings env depth w ->
   forall q d, exists p b,
     call env (S depth) w (VFunction FDefaultFactory) (VString q) = Ok p /\
     call env (S depth) w p (VString d) = Ok (VBoolean b)) /\
  (_normalize w = VFunction FDefaultNormalize ->
   normalizes_strings env (S depth) w) /\
  ((exists s, _placeHolder w = VString s) \/
   (exists b, _placeHolder w = VBoolean b) \/
   _placeHolder w = VNull \/ _placeHolder w = VUndefined ->
   fst (_doRedraw env depth w) = Ok VThis /\
   fst (_doRender env depth w) = Ok VThis) /\
  (forall f arg v,
     call env depth w f arg = Throw (Thrown v) ->
     v = VString GROUP_MESSAGE \/ exists id a, host env id a = Throw (Thrown v)).
Proof.
  assert (Hph : (exists s, _placeHolder w = VString s) \/
                (exists b, _placeHolder w = VBoolean b) \/
                _placeHolder w = VNull \/ _placeHolder w = VUndefined ->
                is_function (_placeHolder w) = false).
  { intros [[s ->] | [[b ->] | [-> | ->]]]; reflexivity. }
  repeat split.
  - destruct args; reflexivity.
  - destruct args; reflexivity.
  - destruct args; reflexivity.
  - intros H q d.
    destruct (H q) as [q' Hq]. destruct (H d) as [d' Hd].
    exists (VFunction (FDefaultPredicate (VString q'))). eexists. split.
    + now apply call_default_factory.
    + eapply call_default_predicate. exact Hd.
  - intros H s. exists (toLowerCase env s). rewrite H. reflexivity.
  - apply doRedraw_ok, Hph. assumption.
  - apply doRender_ok, Hph. assumption.
  - apply thrown_values.
Qed.

End Properties.

(** * Instances on sample pages *)

Lemma ascii_env_lower :
  forall s, is_ascii s = true -> toLowerCase ascii_env s = ascii_lower s.
Proof. reflexivity. Defined.

(** Against C1 as the specification words it: "john coltrane" does not
    contain "cole", so the queries "cole" and "COLE" reject the record
    value "John Coltrane". *)
Lemma cole_rejects_John_Coltrane :
  default_filter ascii_env 2 new_widget (js "cole") (js "John Coltrane")
    = Ok (VBoolean false) /\
  default_filter ascii_env 2 new_widget (js "COLE") (js "John Coltrane")
    = Ok (VBoolean false) /\
  default_filter ascii_env 2 new_widget (js "cole") (js "John Coltrane")
    <> Ok (VBoolean true).
Proof. repeat split. discriminate. Qed.

Lemma default_filter_contains_witness :
  (forall s, is_ascii s = true -> toLowerCase ascii_env s = ascii_lower s) /\
  _normalize new_widget = VFunction FDefaultNormalize /\
  (forall q d : jsstring,
     exists b : bool,
       default_filter ascii_env 2 new_widget q d = Ok (VBoolean b) /\
       (b = true <-> substring_of (ascii_lower q) (ascii_lower d))) /\
  default_filter ascii_env 2 new_widget (js "COLT") (js "John Coltrane")
    = Ok (VBoolean true).
Proof.
  split; [exact ascii_env_lower |]. split; [reflexivity |].
  destruct (proj2 (default_filter_contains ascii_env ascii_env_lower new_widget 0)
              eq_refl) as [H1 [_ [H2 _]]].
  split; [exact H1 | exact H2].
Defined.

Lemma empty_query_matches_all_witness :
  (forall s, is_ascii s = true -> toLowerCase ascii_env s = ascii_lower s) /\
  _normalize new_widget = VFunction FDefaultNormalize /\
  (forall d : jsstring,
     default_filter ascii_env 2 new_widget [] d = Ok (VBoolean true)).
Proof.
  split; [exact ascii_env_lower |]. split; [reflexivity |].
  exact (proj2 (empty_query_matches_all ascii_env ascii_env_lower new_widget 0 eq_refl)).
Defined.

(** The predicate built for "Cole" while the normalization lowercases
    keeps looking for "cole" after the normalization has been replaced by
    the identity, and then rejects "COLE", which it accepted before. *)
Lemma query_normalized_when_built_witness :
  call ascii_env 1 new_widget (_normalize new_widget) (VString (js "Cole"))
    = Ok (VString (js "cole")) /\
  call ascii_env 1 identity_normalizer_widget
       (_normalize identity_normalizer_widget) (VString (js "COLE"))
    = Ok (VString (js "COLE")) /\
  call ascii_env 2 new_widget (VFunction FDefaultFactory) (VString (js "Cole"))
    = Ok (VFunction (FDefaultPredicate (VString (js "cole")))) /\
  (exists b : bool,
     call ascii_env 2 identity_normalizer_widget
          (VFunction (FDefaultPredicate (VString (js "cole")))) (VString (js "COLE"))
       = Ok (VBoolean b) /\
     (b = true <-> substring_of (js "cole") (js "COLE"))) /\
  call ascii_env 2 identity_normalizer_widget
       (VFunction (FDefaultPredicate (VString (js "cole")))) (VString (js "COLE"))
    = Ok (VBoolean false) /\
  call ascii_env 2 new_widget
       (VFunction (FDefaultPredicate (VString (js "cole")))) (VString (js "COLE"))
    = Ok (VBoolean true).
Proof.
  split; [reflexivity |]. split; [reflexivity |].
  destruct (proj2 (proj2 (query_normalized_when_built ascii_env new_widget
                               identity_normalizer_widget 1))
              (js "Cole") (js "COLE") (js "cole") (js "COLE") eq_refl eq_refl)
    as [H1 H2].
  split; [exact H1 |]. split; [exact H2 |]. split; reflexivity.
Defined.

(** Against C2 as the specification words it: the group accessor answers
    without raising. *)
Lemma group_accessor_does_not_raise :
  fst (group [] new_widget) = Ok (VFunction FGroupThrower) /\
  fst (group [VUndefined] new_widget) = Ok VThis /\
  fst (group [] new_widget) <> Throw (Thrown (VString GROUP_MESSAGE)) /\
  fst (group [VUndefined] new_widget) <> Throw (Thrown (VString GROUP_MESSAGE)).
Proof. repeat split; discriminate. Qed.

(** Against C3 as the specification words it: with the application's
    factory 3 configured and the text "COLE" typed, the listener installs
    what the factory answers for "COLE", not what it answers for the
    normalized text. *)
Lemma listener_passes_raw_text :
  let w' := snd (input_event ascii_env 8 [0] (js "COLE") custom_factory_widget) in
  option_map active_filter (_dimension w') = Some (Some (VFunction (FHost 1))) /\
  rbind (call ascii_env 8 custom_factory_widget
           (_normalize custom_factory_widget) (VString (js "COLE")))
        (fun q => call ascii_env 8 custom_factory_widget
                    (_filterFunctionFactory custom_factory_widget) q)
    = Ok (VFunction (FHost 2)) /\
  VFunction (FHost 1) <> VFunction (FHost 2).
Proof. repeat split. discriminate. Qed.

Lemma input_listener_installs_filter_witness :
  get_at [0] (_root rendered_widget) = Some rendered_element /\
  get_assoc "input" (listeners rendered_element) = Some FilterOnInput /\
  _dimension rendered_widget = Some {| active_filter := None |} /\
  input_event ascii_env 8 [0] (js "Col") rendered_widget
  = (Ok tt,
     set_triggered [(RedrawAllCallback, 40%Z)]
       (set_dimension
          (Some {| active_filter :=
                     Some (VFunction (FDefaultPredicate (VString (js "col")))) |})
          (set_root (update_at [0] (set_value (js "Col")) (_root rendered_widget))
             rendered_widget))).
Proof.
  split; [reflexivity |]. split; [reflexivity |]. split; [reflexivity |].
  exact (proj1 (input_listener_installs_filter ascii_env 8 rendered_widget [0]
                  rendered_element (js "Col") {| active_filter := None |}
                  eq_refl eq_refl eq_refl)).
Defined.

(** Against C4 as the specification words it: a mount point that holds
    two inputs holds two after render. *)
Lemma render_keeps_second_input :
  count_tag "input" (_root two_inputs_widget) = 2 /\
  count_tag "input" (_root (snd (_doRender ascii_env 8 two_inputs_widget))) = 2 /\
  count_tag "input" (_root (snd (_doRender ascii_env 8 two_inputs_widget))) <> 1.
Proof. repeat split. discriminate. Qed.

Lemma render_leaves_one_input_witness :
  count_tag "input" (_root new_widget) <= 1 /\
  count_tag "input" (_root (snd (_doRender ascii_env 8 new_widget))) = 1 /\
  (forall n, count_tag "input" (_root (render_times ascii_env 8 (S n) new_widget)) = 1).
Proof.
  assert (H : count_tag "input" (_root new_widget) <= 1) by (simpl; lia).
  split; [exact H |].
  exact (proj2 (proj2 (render_leaves_one_input ascii_env 8 new_widget)) H).
Defined.

(** Against C8 as the specification words it: after
    [normalize(undefined)] the default factory raises on a string; after
    [normalize(f)] with a function that answers undefined, the predicate
    that the default factory builds raises on a string; and after
    [placeHolder(f)] with a function that raises, redraw raises. *)
Lemma default_factory_raises :
  call ascii_env 8 no_normalizer_widget (VFunction FDefaultFactory) (VString (js "a"))
    = Throw TypeError /\
  default_filter ascii_env 8 undefined_normalizer_widget (js "a") (js "b")
    = Throw TypeError /\
  _placeHolder thrower_placeholder_widget = VFunction FGroupThrower /\
  fst (_doRedraw ascii_env 8 thrower_placeholder_widget)
    = Throw (Thrown (VString GROUP_MESSAGE)).
Proof. repeat split. Qed.

(** * Further properties of render, redraw and the listener *)

Section Lifecycle.

Variable env : Env.

(** ** What render touches *)

Lemma doRender_state (depth : nat) (w : Widget) :
  let w' := snd (_doRender env depth w) in
  w' = set_root (_root w') (set_input (_input w') w).
Proof.
  intros w'. subst w'. rewrite doRender_steps. cbn [snd].
  match goal with
  | |- context [_doRedraw env depth ?w4] =>
      destruct (doRedraw_frame env depth w4) as [r' [H _]]; rewrite H
  end.
  destruct w; reflexivity.
Qed.

(** X1 -- Render changes the document and [_input] and nothing else: the
    normalization function, the factory, the placeholder, the group, the
    dimension with its active filter, the chart group and the pending
    redraw requests are as before, whether render completes or raises.
    The element that [_input] selects afterwards is a new one: its text
    is empty, it has no children, and its only listener is the input
    listener. *)
Theorem render_touches_document_only (depth : nat) (w : Widget) :
  let w' := snd (_doRender env depth w) in
  w' = set_root (_root w') (set_input (_input w') w) /\
  _dimension w' = _dimension w /\
  triggered w' = triggered w /\
  exists n e,
    _input w' = Some [[n]] /\ get_at [n] (_root w') = Some e /\
    tag e = "input"%string /\ value e = [] /\ children e = [] /\
    classes e = [INPUT_CSS_CLASS] /\
    listeners e = [("input"%string, FilterOnInput)].
Proof.
  intros w'. pose proof (doRender_state depth w) as H. cbn zeta in H. fold w' in H.
  split; [exact H |].
  split; [rewrite H; reflexivity |].
  split; [rewrite H; reflexivity |].
  destruct (doRender_input env depth w) as [Hin [e [He Hsk]]]. fold w' in Hin, He.
  eexists. exists e. split; [exact Hin |]. split; [exact He |].
  destruct e as [tg cl a l v d cs]. simpl in Hsk.
  injection Hsk as -> -> -> -> _ Hcs. simpl.
  destruct cs; [| discriminate]. repeat split.
Qed.

(** ** Redraw on its own *)

Lemma querySelectorAll_no_match (t : string) (e : element) :
  count_tag t e = 0 -> querySelectorAll t e = [].
Proof.
  revert e.
  apply (element_forest_ind
           (fun e => count_tag t e = 0 -> querySelectorAll t e = [])
           (fun cs => count_forest t (count_tag t) cs = 0 ->
                      querySelectorAll_forest t (querySelectorAll t) cs = [])).
  - reflexivity.
  - intros c rest Hc Hrest. simpl. destruct (has_tag t c); [discriminate |].
    intros H. rewrite Hc, Hrest by lia. reflexivity.
  - intros e H. rewrite count_tag_unfold, querySelectorAll_unfold. exact H.
Qed.

(** X2 -- When no input element is below the mount point (before the
    first render, say), redraw answers the instance and leaves it exactly
    as it is, whatever the placeholder: a placeholder that is a function
    is not called. *)
Theorem redraw_without_input (depth : nat) (w : Widget) :
  count_tag "input" (_root w) = 0 ->
  _doRedraw env depth w = (Ok VThis, w).
Proof.
  intros H. unfold _doRedraw, root, d3_selectAll, d3_attr, bind, ret, get.
  cbn [flat_map get_at]. rewrite (querySelectorAll_no_match _ _ H). reflexivity.
Qed.

Lemma set_assoc_twice {A} (name : string) (v : A) (l : list (string * A)) :
  set_assoc name v (set_assoc name v l) = set_assoc name v l.
Proof.
  induction l as [|[n x] l IH]; simpl.
  - now rewrite String.eqb_refl.
  - destruct (String.eqb n name) eqn:E; simpl; rewrite E; [reflexivity | now rewrite IH].
Qed.

Lemma setAttribute_twice (name : string) (s : jsstring) (e : element) :
  setAttribute name s (setAttribute name s e) = setAttribute name s e.
Proof. destruct e. unfold setAttribute, set_attrs. simpl. now rewrite set_assoc_twice. Qed.

Lemma each_tagged_setAttribute (t name : string) (s : jsstring)
  (f : element -> element) (x : element) :
  each_tagged t f (setAttribute name s x) = setAttribute name s (each_tagged t f x).
Proof. destruct x; reflexivity. Qed.

Lemma each_tagged_twice (t name : string) (s : jsstring) (e : element) :
  each_tagged t (setAttribute name s) (each_tagged t (setAttribute name s) e)
  = each_tagged t (setAttribute name s) e.
Proof.
  revert e.
  set (g := fun c => if has_tag t c
                     then setAttribute name s (each_tagged t (setAttribute name s) c)
                     else each_tagged t (setAttribute name s) c).
  apply (element_forest_ind
           (fun e => each_tagged t (setAttribute name s)
                       (each_tagged t (setAttribute name s) e)
                     = each_tagged t (setAttribute name s) e)
           (fun cs => map g (map g cs) = map g cs)).
  - reflexivity.
  - intros c rest Hc Hrest. cbn [map]. rewrite Hrest. f_equal.
    unfold g. destruct (has_tag t c) eqn:Et.
    + unfold has_tag in *. rewrite tag_setAttribute, tag_each_tagged, Et.
      rewrite each_tagged_setAttribute, Hc. apply setAttribute_twice.
    + unfold has_tag in *. rewrite tag_each_tagged, Et. exact Hc.
  - intros e H. rewrite (each_tagged_unfold t _ (each_tagged t _ e)).
    rewrite (each_tagged_unfold t _ e).
    destruct e as [tg cl a l v d cs]. cbn [children set_children] in *.
    fold g. now rewrite H.
Qed.

(** X3 -- With a string as placeholder, redraw is idempotent: a second
    redraw answers the instance and changes nothing.  Render ends with a
    redraw, so a redraw right after render changes nothing either. *)
Theorem redraw_idempotent (depth depth' : nat) (w : Widget) (P : jsstring) :
  _placeHolder w = VString P ->
  _doRedraw env depth' (snd (_doRedraw env depth w))
    = (Ok VThis, snd (_doRedraw env depth w)) /\
  _doRedraw env depth' (snd (_doRender env depth w))
    = (Ok VThis, snd (_doRender env depth w)).
Proof.
  intros H.
  assert (G : forall w0, _placeHolder w0 = VString P ->
              _doRedraw env depth' (snd (_doRedraw env depth w0))
              = (Ok VThis, snd (_doRedraw env depth w0))).
  { intros w0 H0. rewrite (doRedraw_string env depth w0 P H0). cbn [snd].
    rewrite (doRedraw_string env depth' _ P) by exact H0.
    cbn [_root set_root]. now rewrite each_tagged_twice. }
  split; [now apply G |].
  rewrite doRender_steps. cbn [snd]. apply G. exact H.
Qed.

(** ** Rendering again *)

Lemma querySelector_none (t : string) (e : element) :
  count_tag t e = 0 -> querySelector t e = None.
Proof.
  intros H. destruct (querySelector t e) as [p|] eqn:E; [| reflexivity].
  pose proof (count_tag_remove_first t e p E). lia.
Qed.

Lemma querySelector_forest_last (t : string) (cs : list element) (x : element) :
  count_forest t (count_tag t) cs = 0 -> has_tag t x = true ->
  querySelector_forest t (querySelector t) (cs ++ [x]) = Some [List.length cs].
Proof.
  intros H Hx. induction cs as [|c rest IH]; simpl in *.
  - now rewrite Hx.
  - destruct (has_tag t c); [discriminate |].
    rewrite querySelector_none by lia. rewrite IH by lia. reflexivity.
Qed.

Lemma delete_nth_app_last {A} (l : list A) (x : A) :
  delete_nth (List.length l) (l ++ [x]) = l.
Proof. induction l as [|y l IH]; simpl; [reflexivity | now rewrite IH]. Qed.

Lemma each_tagged_no_match (t : string) (f : element -> element) (e : element) :
  count_tag t e = 0 -> each_tagged t f e = e.
Proof.
  revert e.
  apply (element_forest_ind
           (fun e => count_tag t e = 0 -> each_tagged t f e = e)
           (fun cs => count_forest t (count_tag t) cs = 0 ->
                      map (fun c => if has_tag t c then f (each_tagged t f c)
                                    else each_tagged t f c) cs = cs)).
  - reflexivity.
  - intros c rest Hc Hrest. simpl. destruct (has_tag t c); [discriminate |].
    intros H. rewrite Hc, Hrest by lia. reflexivity.
  - intros e H H0. rewrite each_tagged_unfold.
    rewrite count_tag_unfold in H0. rewrite H by exact H0. apply set_children_id.
Qed.

(** The mount point after a render that found at most one input below
    it: what was there apart from that input, and the new input last. *)
Lemma doRender_owned (depth : nat) (w : Widget) (P : jsstring) :
  count_tag "input" (_root w) <= 1 ->
  _placeHolder w = VString P ->
  let r1 := without_first_input (_root w) in
  count_tag "input" r1 = 0 /\
  snd (_doRender env depth w)
  = set_root
      (set_children
         (children r1 ++ [setAttribute "placeholder" P (rendered_input (datum r1))])
         r1)
      (set_input (Some [[List.length (children r1)]]) w) /\
  fst (_doRender env depth w) = Ok VThis.
Proof.
  intros Hc HP r1.
  assert (H0 : count_tag "input" r1 = 0) by now apply count_without_first_input.
  split; [exact H0 |].
  rewrite doRender_steps. fold r1. cbn [fst snd].
  rewrite (doRedraw_string env depth _ P) by exact HP. cbn [fst snd _root set_root].
  split; [| reflexivity].
  rewrite set_root_set_root.
  f_equal. rewrite each_tagged_unfold.
  rewrite count_tag_unfold in H0.
  destruct r1 as [tg cl a l v d cs]. cbn [children set_children datum] in *.
  unfold set_children; cbn. f_equal.
  rewrite map_app. cbn [map].
  pose proof (each_tagged_no_match "input" (setAttribute "placeholder" P)
                (Element tg cl a l v d cs)) as E.
  rewrite count_tag_unfold, each_tagged_unfold in E. cbn [children] in E.
  specialize (E H0). unfold set_children in E. injection E as E.
  rewrite E. reflexivity.
Qed.

(** X4 -- When the mount point holds at most one input element and the
    placeholder is a string, render is idempotent: a second render
    answers the instance and leaves the document and the instance exactly
    as the first render left them. *)
Theorem render_idempotent (depth depth' : nat) (w : Widget) (P : jsstring) :
  count_tag "input" (_root w) <= 1 ->
  _placeHolder w = VString P ->
  _doRender env depth' (snd (_doRender env depth w))
  = (Ok VThis, snd (_doRender env depth w)).
Proof.
  intros Hc HP.
  destruct (doRender_owned depth w P Hc HP) as [H0 [H1 _]].
  set (r1 := without_first_input (_root w)) in *.
  set (w1 := snd (_doRender env depth w)) in *.
  assert (Hr : without_first_input (_root w1) = r1).
  { rewrite H1. cbn [_root set_root]. unfold without_first_input.
    rewrite querySelector_unfold.
    rewrite count_tag_unfold in H0.
    destruct r1 as [tg cl a l v d cs]. cbn [children set_children datum] in *.
    rewrite querySelector_forest_last by (exact H0 || reflexivity).
    cbn [remove_at children set_children tag classes attrs listeners value datum].
    unfold set_children; cbn. now rewrite delete_nth_app_last. }
  assert (Hc1 : count_tag "input" (_root w1) <= 1).
  { subst w1. rewrite doRender_count. fold r1. lia. }
  assert (HP1 : _placeHolder w1 = VString P) by (rewrite H1; exact HP).
  destruct (doRender_owned depth' w1 P Hc1 HP1) as [_ [H2 H3]].
  rewrite Hr in H2.
  rewrite (surjective_pairing (_doRender env depth' w1)), H2, H3.
  f_equal. rewrite H1. destruct w; reflexivity.
Qed.

(** ** Typing *)

Lemma input_event_run (depth : nat) (w : Widget) (p : path) (this : element)
  (text : jsstring) :
  get_at p (_root w) = Some this ->
  get_assoc "input" (listeners this) = Some FilterOnInput ->
  input_event env depth p text w
  = input_listener env depth text
      (set_root (update_at p (set_value text) (_root w)) w).
Proof.
  intros Hthis Hl. unfold input_event, bind, modify, get. cbn [_root set_root].
  rewrite (get_at_update_at p (set_value text) (_root w) this Hthis).
  replace (listeners (set_value text this)) with (listeners this)
    by (destruct this; reflexivity).
  rewrite Hl. now destruct this.
Qed.

Lemma input_listener_bound (depth : nat) (w : Widget) (text : jsstring)
  (dim : Dimension) (pred : jsval) :
  _dimension w = Some dim ->
  call env depth w (_filterFunctionFactory w) (VString text) = Ok pred ->
  input_listener env depth text w
  = (Ok tt,
     set_triggered (triggered w ++ [(RedrawAllCallback, EVENT_DELAY env)])
       (set_dimension (Some {| active_filter := Some pred |}) w)).
Proof.
  intros Hd Hc.
  unfold input_listener, dimension, bind, get, lift, filterFunction,
    events_trigger, modify. rewrite Hd, Hc. reflexivity.
Qed.

(** X5 -- Two edits in a row of the text of the input, in a widget bound
    to a dimension and with a factory that answers for both texts: the
    active filter function of the dimension is the one built for the
    second text (the first is replaced), the input holds the second text,
    and two redraw requests have been handed to the debounced trigger,
    one per edit. *)
Theorem last_keystroke_wins
  (depth : nat) (w : Widget) (p : path) (this : element) (dim : Dimension)
  (t1 t2 : jsstring) (p1 p2 : jsval) :
  get_at p (_root w) = Some this ->
  get_assoc "input" (listeners this) = Some FilterOnInput ->
  _dimension w = Some dim ->
  call env depth w (_filterFunctionFactory w) (VString t1) = Ok p1 ->
  call env depth w (_filterFunctionFactory w) (VString t2) = Ok p2 ->
  let w1 := snd (input_event env depth p t1 w) in
  let w2 := snd (input_event env depth p t2 w1) in
  fst (input_event env depth p t1 w) = Ok tt /\
  fst (input_event env depth p t2 w1) = Ok tt /\
  _dimension w1 = Some {| active_filter := Some p1 |} /\
  _dimension w2 = Some {| active_filter := Some p2 |} /\
  get_at p (_root w2) = Some (set_value t2 this) /\
  triggered w2
  = triggered w ++ [(RedrawAllCallback, EVENT_DELAY env);
                    (RedrawAllCallback, EVENT_DELAY env)].
Proof.
  intros Hthis Hl Hd H1 H2 w1 w2.
  assert (E1 : input_event env depth p t1 w
               = (Ok tt,
                  set_triggered (triggered w ++ [(RedrawAllCallback, EVENT_DELAY env)])
                    (set_dimension (Some {| active_filter := Some p1 |})
                       (set_root (update_at p (set_value t1) (_root w)) w)))).
  { rewrite (input_event_run depth w p this t1 Hthis Hl).
    rewrite (input_listener_bound depth _ t1 dim p1); [reflexivity | exact Hd |].
    etransitivity; [| exact H1].
    apply (call_reads_normalize env depth _ w). reflexivity. }
  assert (Hthis1 : get_at p (_root w1) = Some (set_value t1 this)).
  { subst w1. rewrite E1. cbn [snd _root set_triggered set_dimension set_root].
    now apply get_at_update_at. }
  assert (Hl1 : get_assoc "input" (listeners (set_value t1 this)) = Some FilterOnInput)
    by (destruct this; exact Hl).
  assert (E2 : input_event env depth p t2 w1
               = (Ok tt,
                  set_triggered (triggered w1 ++ [(RedrawAllCallback, EVENT_DELAY env)])
                    (set_dimension (Some {| active_filter := Some p2 |})
                       (set_root (update_at p (set_value t2) (_root w1)) w1)))).
  { rewrite (input_event_run depth w1 p _ t2 Hthis1 Hl1).
    rewrite (input_listener_bound depth _ t2 {| active_filter := Some p1 |} p2);
      [reflexivity | |].
    - subst w1. rewrite E1. reflexivity.
    - etransitivity; [| exact H2]. subst w1. rewrite E1.
      apply (call_reads_normalize env depth _ w). reflexivity. }
  subst w2. rewrite E2. split; [now rewrite E1 |]. split; [reflexivity |].
  split; [subst w1; now rewrite E1 |]. split; [reflexivity |].
  cbn [snd _root set_triggered set_dimension set_root triggered].
  split.
  - rewrite (get_at_update_at p (set_value t2) (_root w1) _ Hthis1).
    now destruct this.
  - subst w1. rewrite E1. cbn [snd triggered set_triggered set_dimension set_root].
    now rewrite <- app_assoc.
Qed.

(** X6 -- In a widget that is not bound to a dimension, an edit of the
    text of the input makes the listener raise a TypeError before the
    factory is called, whatever the factory is: the input holds the new
    text, and nothing is installed or scheduled. *)
Theorem keystroke_without_dimension
  (depth : nat) (w : Widget) (p : path) (this : element) (text : jsstring) :
  get_at p (_root w) = Some this ->
  get_assoc "input" (listeners this) = Some FilterOnInput ->
  _dimension w = None ->
  input_event env depth p text w
  = (Throw TypeError, set_root (update_at p (set_value text) (_root w)) w).
Proof.
  intros Hthis Hl Hd. rewrite (input_event_run depth w p this text Hthis Hl).
  unfold input_listener, dimension, bind, get, throw. cbn [_dimension set_root].
  rewrite Hd. reflexivity.
Qed.

End Lifecycle.

(** * Further properties of the default filter *)

Section DefaultFilter.

Variable env : Env.

(** X7 -- With the default normalization, the default factory raises a
    TypeError on every query that is not a string, and every predicate it
    has built raises a TypeError on every record value that is not a
    string: the dimension has to answer strings. *)
Theorem default_filter_needs_strings (depth : nat) (w : Widget) (v : jsval) :
  _normalize w = VFunction FDefaultNormalize ->
  (forall s, v <> VString s) ->
  call env (S (S depth)) w (VFunction FDefaultFactory) v = Throw TypeError /\
  (forall query,
     call env (S (S depth)) w (VFunction (FDefaultPredicate query)) v
     = Throw TypeError).
Proof.
  intros H Hv. split; [| intros query]; cbn [call]; rewrite H;
    destruct v; try reflexivity; now elim (Hv s).
Qed.

(** X10 -- From construction to filtering: a widget is constructed on any
    mount point, bound to a dimension and rendered; the user then types a
    text into the input that [_input] selects.  The edit completes, the
    dimension's active filter function is the default predicate for the
    lowercased text, one redraw request is pending, and that predicate
    accepts a record value exactly when its lowercase form contains the
    lowercased text. *)
Theorem render_then_type
  (parent : element) (chartGroup : jsval) (dim : Dimension)
  (depth depth' : nat) (text : jsstring) :
  let w := set_dimension (Some dim) (snd (textFilterWidget parent chartGroup)) in
  let w1 := snd (_doRender env depth w) in
  let pred := VFunction (FDefaultPredicate (VString (toLowerCase env text))) in
  exists n,
    _input w1 = Some [[n]] /\
    fst (input_event env (S (S depth')) [n] text w1) = Ok tt /\
    let w2 := snd (input_event env (S (S depth')) [n] text w1) in
    _dimension w2 = Some {| active_filter := Some pred |} /\
    triggered w2 = [(RedrawAllCallback, EVENT_DELAY env)] /\
    forall d : jsstring,
      exists b : bool,
        call env (S (S depth')) w2 pred (VString d) = Ok (VBoolean b) /\
        (b = true <-> substring_of (toLowerCase env text) (toLowerCase env d)).
Proof.
  intros w w1 pred.
  pose proof (doRender_state env depth w) as Hst. cbn zeta in Hst. fold w1 in Hst.
  destruct (doRender_input env depth w) as [Hin [e [He Hsk]]]. fold w1 in Hin, He.
  set (n := List.length (children (without_first_input (_root w)))) in *.
  exists n. split; [exact Hin |].
  assert (Hl : get_assoc "input" (listeners e) = Some FilterOnInput)
    by (destruct e; simpl in Hsk; injection Hsk as _ _ -> _ _ _; reflexivity).
  assert (Hn : _normalize w1 = VFunction FDefaultNormalize) by (rewrite Hst; reflexivity).
  assert (Hf : _filterFunctionFactory w1 = VFunction FDefaultFactory)
    by (rewrite Hst; reflexivity).
  assert (Hd : _dimension w1 = Some dim) by (rewrite Hst; reflexivity).
  assert (Ht : triggered w1 = []) by (rewrite Hst; reflexivity).
  rewrite (input_event_run env (S (S depth')) w1 [n] e text He Hl).
  rewrite (input_listener_bound env (S (S depth')) _ text dim pred);
    [| exact Hd
     | cbn [_filterFunctionFactory set_root]; rewrite Hf;
       apply call_default_factory; cbn [_normalize set_root]; rewrite Hn;
       reflexivity].
  cbn [fst snd]. split; [reflexivity |]. split; [reflexivity |].
  split; [cbn [triggered set_triggered set_dimension set_root]; now rewrite Ht |].
  intros d. eexists. split.
  - apply call_default_predicate.
    cbn [_normalize set_triggered set_dimension set_root]. rewrite Hn. reflexivity.
  - apply indexOf_spec.
Qed.

(** On ASCII text the engine's [toLowerCase] is [ascii_lower]. *)
Hypothesis lower_ascii :
  forall s, is_ascii s = true -> toLowerCase env s = ascii_lower s.

Lemma is_ascii_app (a b : jsstring) :
  is_ascii (a ++ b) = is_ascii a && is_ascii b.
Proof. apply forallb_app. Qed.

Lemma substring_of_trans (a b c : jsstring) :
  substring_of a b -> substring_of b c -> substring_of a c.
Proof.
  intros [pre [post ->]] [pre' [post' ->]].
  exists (pre' ++ pre), (post ++ post'). now rewrite <- !app_assoc.
Qed.

(** X8 -- The default filter ignores the case of ASCII letters: two ASCII
    queries that differ only in case get the same predicate from the
    default factory, and a predicate answers the same on two ASCII record
    values that differ only in case. *)
Theorem default_filter_ignores_case (depth : nat) (w : Widget) (a b : jsstring) :
  _normalize w = VFunction FDefaultNormalize ->
  is_ascii a = true -> is_ascii b = true ->
  ascii_lower a = ascii_lower b ->
  call env (S (S depth)) w (VFunction FDefaultFactory) (VString a)
    = call env (S (S depth)) w (VFunction FDefaultFactory) (VString b) /\
  (forall q, default_filter env (S (S depth)) w q a
             = default_filter env (S (S depth)) w q b).
Proof.
  intros H Ha Hb E.
  assert (L : toLowerCase env a = toLowerCase env b)
    by (rewrite !lower_ascii by assumption; exact E).
  split.
  - rewrite !(call_default_factory env (S depth) w _ (VString (toLowerCase env b)));
      try reflexivity; rewrite H; cbn [call call_toLowerCase]; [| rewrite L];
      reflexivity.
  - intros q. rewrite !default_filter_default by exact H. now rewrite L.
Qed.

(** X9 -- Typing more never adds matches: when an ASCII query q2 contains
    the query q1, every record value that the default predicate for q2
    accepts is accepted by the default predicate for q1. *)
Theorem longer_query_narrows (depth : nat) (w : Widget) (q1 q2 d : jsstring) :
  _normalize w = VFunction FDefaultNormalize ->
  is_ascii q2 = true ->
  substring_of q1 q2 ->
  default_filter env (S (S depth)) w q2 d = Ok (VBoolean true) ->
  default_filter env (S (S depth)) w q1 d = Ok (VBoolean true).
Proof.
  intros H Ha [pre [post ->]].
  rewrite !is_ascii_app, !andb_true_iff in Ha. destruct Ha as [Hpre [Hq1 Hpost]].
  rewrite !default_filter_default by exact H.
  intros E. injection E as E. f_equal. f_equal.
  apply indexOf_spec in E. apply indexOf_spec.
  apply (substring_of_trans _ (toLowerCase env (pre ++ q1 ++ post))); [| exact E].
  rewrite (lower_ascii q1) by exact Hq1.
  rewrite (lower_ascii (pre ++ q1 ++ post))
    by (rewrite !is_ascii_app, Hpre, Hq1, Hpost; reflexivity).
  exists (ascii_lower pre), (ascii_lower post).
  unfold ascii_lower. now rewrite !map_app.
Qed.

End DefaultFilter.

(** * Instances of the further properties *)

Lemma redraw_without_input_witness :
  count_tag "input" (_root new_widget) = 0 /\
  _doRedraw ascii_env 8 new_widget = (Ok VThis, new_widget).
Proof.
  split; [reflexivity |].
  exact (redraw_without_input ascii_env 8 new_widget eq_refl).
Defined.

Lemma redraw_idempotent_witness :
  _placeHolder rendered_widget = VString (js "search") /\
  _doRedraw ascii_env 8 (snd (_doRedraw ascii_env 8 rendered_widget))
    = (Ok VThis, snd (_doRedraw ascii_env 8 rendered_widget)).
Proof.
  split; [reflexivity |].
  exact (proj1 (redraw_idempotent ascii_env 8 8 rendered_widget (js "search") eq_refl)).
Defined.

Lemma render_idempotent_witness :
  count_tag "input" (_root new_widget) <= 1 /\
  _placeHolder new_widget = VString (js "search") /\
  _doRender ascii_env 8 (snd (_doRender ascii_env 8 new_widget))
    = (Ok VThis, snd (_doRender ascii_env 8 new_widget)).
Proof.
  assert (H : count_tag "input" (_root new_widget) <= 1) by (simpl; lia).
  split; [exact H |]. split; [reflexivity |].
  exact (render_idempotent ascii_env 8 8 new_widget (js "search") H eq_refl).
Defined.

Lemma last_keystroke_wins_witness :
  get_at [0] (_root rendered_widget) = Some rendered_element /\
  get_assoc "input" (listeners rendered_element) = Some FilterOnInput /\
  _dimension rendered_widget = Some {| active_filter := None |} /\
  call ascii_env 8 rendered_widget (_filterFunctionFactory rendered_widget)
       (VString (js "C")) = Ok (VFunction (FDefaultPredicate (VString (js "c")))) /\
  call ascii_env 8 rendered_widget (_filterFunctionFactory rendered_widget)
       (VString (js "Co")) = Ok (VFunction (FDefaultPredicate (VString (js "co")))) /\
  _dimension (snd (input_event ascii_env 8 [0] (js "Co")
                     (snd (input_event ascii_env 8 [0] (js "C") rendered_widget))))
    = Some {| active_filter :=
                Some (VFunction (FDefaultPredicate (VString (js "co")))) |}.
Proof.
  repeat (split; [reflexivity |]).
  destruct (last_keystroke_wins ascii_env 8 rendered_widget [0] rendered_element
              {| active_filter := None |} (js "C") (js "Co")
              (VFunction (FDefaultPredicate (VString (js "c"))))
              (VFunction (FDefaultPredicate (VString (js "co"))))
              eq_refl eq_refl eq_refl eq_refl eq_refl) as [_ [_ [_ [H _]]]].
  exact H.
Defined.

Lemma keystroke_without_dimension_witness :
  get_at [0] (_root (snd (_doRender ascii_env 8 new_widget))) = Some rendered_element /\
  get_assoc "input" (listeners rendered_element) = Some FilterOnInput /\
  _dimension (snd (_doRender ascii_env 8 new_widget)) = None /\
  fst (input_event ascii_env 8 [0] (js "C") (snd (_doRender ascii_env 8 new_widget)))
    = Throw TypeError.
Proof.
  repeat (split; [reflexivity |]).
  rewrite (keystroke_without_dimension ascii_env 8
             (snd (_doRender ascii_env 8 new_widget)) [0] rendered_element (js "C")
             eq_refl eq_refl eq_refl).
  reflexivity.
Defined.

Lemma default_filter_needs_strings_witness :
  _normalize new_widget = VFunction FDefaultNormalize /\
  (forall s, VUndefined <> VString s) /\
  call ascii_env 2 new_widget (VFunction FDefaultFactory) VUndefined = Throw TypeError.
Proof.
  assert (H : forall s, VUndefined <> VString s) by discriminate.
  split; [reflexivity |]. split; [exact H |].
  exact (proj1 (default_filter_needs_strings ascii_env 0 new_widget VUndefined
                  eq_refl H)).
Defined.

Lemma default_filter_ignores_case_witness :
  _normalize new_widget = VFunction FDefaultNormalize /\
  is_ascii (js "COLT") = true /\ is_ascii (js "colt") = true /\
  ascii_lower (js "COLT") = ascii_lower (js "colt") /\
  call ascii_env 2 new_widget (VFunction FDefaultFactory) (VString (js "COLT"))
    = call ascii_env 2 new_widget (VFunction FDefaultFactory) (VString (js "colt")).
Proof.
  repeat (split; [reflexivity |]).
  exact (proj1 (default_filter_ignores_case ascii_env ascii_env_lower 0 new_widget
                  (js "COLT") (js "colt") eq_refl eq_refl eq_refl eq_refl)).
Defined.

Lemma longer_query_narrows_witness :
  _normalize new_widget = VFunction FDefaultNormalize /\
  is_ascii (js "Colt") = true /\
  substring_of (js "ol") (js "Colt") /\
  default_filter ascii_env 2 new_widget (js "Colt") (js "John Coltrane")
    = Ok (VBoolean true) /\
  default_filter ascii_env 2 new_widget (js "ol") (js "John Coltrane")
    = Ok (VBoolean true).
Proof.
  assert (S : substring_of (js "ol") (js "Colt"))
    by (exists (js "C"), (js "t"); reflexivity).
  split; [reflexivity |]. split; [reflexivity |]. split; [exact S |].
  split; [reflexivity |].
  exact (longer_query_narrows ascii_env ascii_env_lower 0 new_widget
           (js "ol") (js "Colt") (js "John Coltrane") eq_refl eq_refl S eq_refl).
Defined.

(** * Redraw and the inputs below the mount point *)

Section RedrawPlaceholder.

Variable env : Env.

Lemma count_forest_nth (t : string) (cs : list element) (n : nat) (e : element) :
  nth_error cs n = Some e -> has_tag t e = true ->
  1 <= count_forest t (count_tag t) cs.
Proof.
  revert n. induction cs as [|c rest IH]; intros [|n] H He; simpl in *;
    try discriminate.
  - injection H as ->. rewrite He. lia.
  - specialize (IH n H He). lia.
Qed.

Lemma map_each_tagged_no_match (t : string) (f : element -> element)
  (cs : list element) :
  count_forest t (count_tag t) cs = 0 ->
  map (fun c => if has_tag t c then f (each_tagged t f c)
                else each_tagged t f c) cs = cs.
Proof.
  induction cs as [|c rest IH]; simpl; [reflexivity |].
  destruct (has_tag t c); [discriminate |].
  intros H. rewrite each_tagged_no_match, IH by lia. reflexivity.
Qed.

Lemma map_each_tagged_single (t : string) (f : element -> element)
  (cs : list element) (n : nat) (e : element) :
  count_forest t (count_tag t) cs = 1 ->
  nth_error cs n = Some e -> has_tag t e = true ->
  map (fun c => if has_tag t c then f (each_tagged t f c)
                else each_tagged t f c) cs = alter_nth n f cs.
Proof.
  revert n. induction cs as [|c rest IH]; intros [|n] Hc H He; simpl in *;
    try discriminate.
  - injection H as ->. rewrite He in *.
    rewrite each_tagged_no_match, map_each_tagged_no_match by lia. reflexivity.
  - pose proof (count_forest_nth t rest n e H He) as Hr.
    destruct (has_tag t c); [lia |].
    rewrite each_tagged_no_match by lia. f_equal. apply (IH n); [lia | exact H | exact He].
Qed.

(** When the only input below the mount point is the child [n], redraw
    with a string is an update of that child. *)
Lemma each_tagged_single (t : string) (f : element -> element)
  (r : element) (n : nat) (e : element) :
  count_tag t r = 1 -> get_at [n] r = Some e -> has_tag t e = true ->
  each_tagged t f r = update_at [n] f r.
Proof.
  intros Hc H He. rewrite each_tagged_unfold. rewrite count_tag_unfold in Hc.
  cbn [get_at] in H.
  destruct (nth_error (children r) n) as [c|] eqn:E; [| discriminate].
  injection H as ->.
  rewrite (map_each_tagged_single t f (children r) n e Hc E He). reflexivity.
Qed.

(** C5 (as amended) -- After the placeholder text is set to a string P
    and redraw is called, redraw has answered the instance without
    raising, and every input element below the mount point, the one that
    render created among them, has its placeholder attribute equal to P.
    Redraw changes nothing else: no field of the instance, and nothing in
    the document but that attribute of the inputs below the mount point.
    When the input that render created is the only input below the mount
    point, its placeholder attribute is all that redraw changes. *)
Theorem placeHolder_then_redraw
  (depth : nat) (w : Widget) (P : jsstring) (rest : list jsval) :
  let w1 := snd (placeHolder (VString P :: rest) w) in
  let w2 := snd (_doRedraw env depth w1) in
  fst (_doRedraw env depth w1) = Ok VThis /\
  (forall p e, p <> [] -> get_at p (_root w2) = Some e -> tag e = "input"%string ->
               getAttribute "placeholder" e = Some P) /\
  forget_attr "input" "placeholder" (_root w2)
    = forget_attr "input" "placeholder" (_root w) /\
  skeleton (_root w2) = skeleton (_root w) /\
  w2 = set_root (_root w2) w1 /\
  (forall depth0 w0, w = snd (_doRender env depth0 w0) ->
     exists n e, _input w2 = Some [[n]] /\ get_at [n] (_root w2) = Some e /\
                 tag e = "input"%string /\ classes e = [INPUT_CSS_CLASS] /\
                 getAttribute "placeholder" e = Some P) /\
  (forall n e, count_tag "input" (_root w) = 1 ->
     get_at [n] (_root w) = Some e -> tag e = "input"%string ->
     _root w2 = update_at [n] (setAttribute "placeholder" P) (_root w)).
Proof.
  intros w1 w2.
  assert (E : _doRedraw env depth w1
              = (Ok VThis,
                 set_root (each_tagged "input" (setAttribute "placeholder" P) (_root w)) w1))
    by (subst w1; rewrite (doRedraw_string env depth _ P); reflexivity).
  subst w2. rewrite E. cbn [fst snd]. cbn [_root set_root].
  assert (Hget : forall p e, p <> [] ->
            get_at p (each_tagged "input" (setAttribute "placeholder" P) (_root w)) = Some e ->
            tag e = "input"%string -> getAttribute "placeholder" e = Some P).
  { intros p e Hp He Ht.
    destruct (get_at_each_tagged _ _ _ _ _ _ Hp He) as [x0 [_ [Htag [_ Hattrs]]]].
    unfold has_tag in Hattrs. rewrite <- Htag, Ht in Hattrs. simpl in Hattrs.
    unfold getAttribute. rewrite Hattrs. apply get_assoc_set_assoc. }
  repeat split.
  - exact Hget.
  - apply forget_attr_each_tagged.
  - apply skeleton_each_tagged.
  - intros depth0 w0 Hw.
    destruct (doRender_input env depth0 w0) as [Hin [e0 [He0 Hsk]]].
    rewrite <- Hw in Hin, He0.
    set (n := List.length (children (without_first_input (_root w0)))) in *.
    assert (G : exists e, get_at [n] (each_tagged "input"
                                        (setAttribute "placeholder" P) (_root w)) = Some e).
    { rewrite each_tagged_unfold. destruct (_root w) as [tg cl a l v d cs].
      cbn [get_at children set_children] in *. rewrite nth_error_map.
      destruct (nth_error cs n); [| discriminate]. eexists. reflexivity. }
    destruct G as [e G]. exists n, e.
    assert (Hn : [n] <> []) by discriminate.
    destruct (get_at_each_tagged _ _ _ _ _ _ Hn G) as [x0 [Hx0 [Htag [Hcl _]]]].
    rewrite He0 in Hx0. injection Hx0 as <-.
    assert (Ht : tag e0 = "input"%string /\ classes e0 = [INPUT_CSS_CLASS])
      by (destruct e0; simpl in Hsk; injection Hsk; auto).
    destruct Ht as [Ht Hc].
    repeat split; [exact Hin | exact G | congruence | congruence |].
    apply (Hget [n]); [discriminate | exact G | congruence].
  - intros n e Hc He Ht.
    apply (each_tagged_single _ _ _ n e Hc He).
    unfold has_tag. rewrite Ht. reflexivity.
Qed.

End RedrawPlaceholder.

(** Against C5 as the specification words it: on the page with two
    inputs, render leaves the second of them in front of the input it
    creates, which [_input] selects; after [placeHolder("P")], redraw
    changes the placeholder of that other input as well, from "search" to
    "P". *)
Lemma redraw_rewrites_other_input :
  let w := snd (_doRender ascii_env 8 two_inputs_widget) in
  let w1 := snd (placeHolder [VString (js "P")] w) in
  let w2 := snd (_doRedraw ascii_env 8 w1) in
  _input w1 = Some [[1]] /\
  option_map (getAttribute "placeholder") (get_at [0] (_root w1))
    = Some (Some (js "search")) /\
  option_map (getAttribute "placeholder") (get_at [0] (_root w2))
    = Some (Some (js "P")) /\
  get_at [0] (_root w2) <> get_at [0] (_root w1).
Proof. repeat split. discriminate. Qed.
